(** * Moltr API: a shallow embedding of the authentication, receipt and
      object-upload routes, with the properties of their specification.

    Source files embedded here:
    - [apps/api/src/lib/auth.ts]        (module [Auth])
    - [apps/api/src/routes/receipts.ts] (module [Receipts])
    - [apps/api/src/routes/tags.ts]     (module [Tags])
    - [routes/objects.ts], [lib/storage.ts] (module [Objects])

    The relational store (Prisma), the hash library (argon2), the schema
    library (zod) and the JavaScript built-ins the routes call are embedded
    in the modules [Js] and [Store], as far as the routes use them. *)

From Stdlib Require Import String Ascii.
From Stdlib Require Import ZArith NArith List Bool Lia.
From Stdlib Require Import Permutation Sorted.
Import ListNotations.
Open Scope Z_scope.
Set Warnings "-register-all".

(* ================================================================== *)
(** * Part I: definitions                                               *)
(* ================================================================== *)

(** ** JavaScript values and built-ins *)
Module Js.

(** A JavaScript string is a sequence of UTF-16 code units. *)
Definition jsstring := list N.

(** ASCII literals of the source text. *)
Definition js (s : string) : jsstring :=
  map N_of_ascii (list_ascii_of_string s).

(** Strict equality [===] on strings. *)
Fixpoint str_eqb (a b : jsstring) : bool :=
  match a, b with
  | [], [] => true
  | x :: a', y :: b' => (x =? y)%N && str_eqb a' b'
  | _, _ => false
  end.

(** [s.length] *)
Definition str_length (s : jsstring) : Z := Z.of_nat (length s).

(** Exceptions a call can raise. *)
Inductive JsError :=
| TypeError
| RangeError
| URIError
| StoreError.

(** The result of a call (of an awaited promise): a value, or an exception
    (a rejection). *)
Inductive Outcome (A : Type) :=
| Returns (a : A)
| Throws (e : JsError).
Arguments Returns {A} a.
Arguments Throws {A} e.

Definition bind {A B} (c : Outcome A) (k : A -> Outcome B) : Outcome B :=
  match c with
  | Returns a => k a
  | Throws e => Throws e
  end.

(** Number values. A finite number is either an integer [z] or the
    non-integer [m / 2^k] with [m] odd; the binary64 format restricts
    which of these exist (see [binary64] and [wf_number]).  The sign of
    zero is not kept: no operation embedded here distinguishes it. *)
Inductive JsNumber :=
| NaN
| Infinity (negative : bool)
| NInt (z : Z)
| NFrac (m : Z) (k : positive).

(** The integers that are binary64 values: a 53-bit significand times a
    power of two, below 2^1024. *)
Definition binary64 (z : Z) : Prop :=
  exists m e, Z.abs m < 2 ^ 53 /\ 0 <= e <= 971 /\ z = m * 2 ^ e.

Definition wf_number (n : JsNumber) : Prop :=
  match n with
  | NInt z => binary64 z
  | NFrac m k => Z.odd m = true /\ Z.abs m < 2 ^ 53 /\ (Z.pos k <= 1074)
  | _ => True
  end.

(** [Number.isInteger] *)
Definition isInteger (n : JsNumber) : bool :=
  match n with
  | NInt _ => true
  | _ => false
  end.

(** [n >= 0] *)
Definition geq0 (n : JsNumber) : bool :=
  match n with
  | NaN => false
  | Infinity negative => negb negative
  | NInt z => 0 <=? z
  | NFrac m _ => 0 <? m
  end.

(** Round a non-negative integer to 53 significant bits, to nearest, ties
    to even. *)
Definition round53 (n : Z) : Z :=
  let bits := Z.log2 n + 1 in
  if bits <=? 53 then n
  else
    let sh := bits - 53 in
    let q := Z.shiftr n sh in
    let r := Z.land n (Z.ones sh) in
    let half := Z.shiftl 1 (sh - 1) in
    let q' := if (half <? r) || ((r =? half) && Z.odd q) then q + 1 else q in
    Z.shiftl q' sh.

(** [Number(b)] for a BigInt [b]. *)
Definition Number_of_BigInt (b : Z) : JsNumber :=
  let a := round53 (Z.abs b) in
  if 2 ^ 1024 <=? a then Infinity (b <? 0) else NInt (Z.sgn b * a).

(** The number that an integer literal of a JSON text denotes: the
    binary64 value nearest to it. *)
Definition JSON_number (literal : Z) : JsNumber := Number_of_BigInt literal.

(** [BigInt(n)] for a number [n]: a RangeError unless [n] is an integer. *)
Definition BigInt_of_Number (n : JsNumber) : Outcome Z :=
  match n with
  | NInt z => Returns z
  | _ => Throws RangeError
  end.

(** The values that reach the routes. [VObject] stands for arrays,
    buffers and other objects, which the routes only test. *)
Inductive JsValue :=
| VUndefined
| VNull
| VBool (b : bool)
| VNumber (n : JsNumber)
| VString (s : jsstring)
| VObject.

(** ToBoolean: [!v] is [negb (truthy v)]. *)
Definition truthy (v : JsValue) : bool :=
  match v with
  | VUndefined | VNull => false
  | VBool b => b
  | VNumber NaN => false
  | VNumber (NInt 0) => false
  | VNumber _ => true
  | VString [] => false
  | VString _ => true
  | VObject => true
  end.

(** WhiteSpace and LineTerminator code units, as [trim] and [parseInt]
    strip them. *)
Definition is_white_space (c : N) : bool :=
  ((c =? 9) || (c =? 10) || (c =? 11) || (c =? 12) || (c =? 13)
   || (c =? 32) || (c =? 160) || (c =? 5760)
   || ((8192 <=? c) && (c <=? 8202))
   || (c =? 8232) || (c =? 8233) || (c =? 8239) || (c =? 8287)
   || (c =? 12288) || (c =? 65279))%N.

Fixpoint trimStart (s : jsstring) : jsstring :=
  match s with
  | c :: t => if is_white_space c then trimStart t else s
  | [] => []
  end.

(** [s.trim()] *)
Definition trim (s : jsstring) : jsstring :=
  rev (trimStart (rev (trimStart s))).

Definition digit_value (c : N) : option Z :=
  if ((48 <=? c) && (c <=? 57))%N then Some (Z.of_N c - 48) else None.

(** The longest prefix of decimal digits, most significant first. *)
Fixpoint leading_digits (s : jsstring) : list Z :=
  match s with
  | c :: t =>
      match digit_value c with
      | Some d => d :: leading_digits t
      | None => []
      end
  | [] => []
  end.

Definition decimal_value (ds : list Z) : Z :=
  fold_left (fun acc d => 10 * acc + d) ds 0.

(** [parseInt(s, 10)]: [None] is NaN.  The value is the mathematical
    integer; the routes compare it with small constants only, which
    rounding to binary64 (monotone, exact below 2^53) does not change. *)
Definition parseInt10 (s : jsstring) : option Z :=
  let s1 := trimStart s in
  let '(negative, s2) :=
    match s1 with
    | c :: t =>
        if (c =? 45)%N then (true, t)
        else if (c =? 43)%N then (false, t)
        else (false, s1)
    | [] => (false, [])
    end in
  match leading_digits s2 with
  | [] => None
  | ds => Some (if negative then - decimal_value ds else decimal_value ds)
  end.

(** [s.toLowerCase()], on the code units whose lower case is a letter of
    [a-z]: the capitals A-Z and U+212A (KELVIN SIGN).  Every other code
    unit is kept: its lower case has a unit outside [[a-z0-9_]], as the
    unit itself is, and the routes use the result only after testing it
    against that class. *)
Definition lower_unit (c : N) : N :=
  if ((65 <=? c) && (c <=? 90))%N then (c + 32)%N
  else if (c =? 8490)%N then 107%N
  else c.

Definition toLowerCase (s : jsstring) : jsstring := map lower_unit s.

(** *** Regular expressions (the fragment the routes use) *)
Inductive Re :=
| Void
| Eps
| Class (p : N -> bool)
| Cat (a b : Re)
| Alt (a b : Re)
| Star (a : Re).

Definition Chr (c : N) : Re := Class (N.eqb c).
Definition NotChr (c : N) : Re := Class (fun x => negb (N.eqb c x)).
Definition Plus (a : Re) : Re := Cat a (Star a).

(** A literal string. *)
Fixpoint Lit (s : jsstring) : Re :=
  match s with
  | [] => Eps
  | c :: t => Cat (Chr c) (Lit t)
  end.

Fixpoint nullable (r : Re) : bool :=
  match r with
  | Void => false
  | Eps => true
  | Class _ => false
  | Cat a b => nullable a && nullable b
  | Alt a b => nullable a || nullable b
  | Star _ => true
  end.

Fixpoint deriv (c : N) (r : Re) : Re :=
  match r with
  | Void => Void
  | Eps => Void
  | Class p => if p c then Eps else Void
  | Cat a b =>
      if nullable a then Alt (Cat (deriv c a) b) (deriv c b)
      else Cat (deriv c a) b
  | Alt a b => Alt (deriv c a) (deriv c b)
  | Star a => Cat (deriv c a) (Star a)
  end.

(** [/^r$/.test(s)]: the whole of [s] matches [r]. *)
Fixpoint test (r : Re) (s : jsstring) : bool :=
  match s with
  | [] => nullable r
  | c :: t => test (deriv c r) t
  end.

(** The strings a regular expression denotes. *)
Inductive matches : Re -> jsstring -> Prop :=
| MEps : matches Eps []
| MClass p c : p c = true -> matches (Class p) [c]
| MCat a b s1 s2 :
    matches a s1 -> matches b s2 -> matches (Cat a b) (s1 ++ s2)
| MAltL a b s : matches a s -> matches (Alt a b) s
| MAltR a b s : matches b s -> matches (Alt a b) s
| MStar0 a : matches (Star a) []
| MStarS a s1 s2 :
    matches a s1 -> matches (Star a) s2 -> matches (Star a) (s1 ++ s2).

(** *** decodeURIComponent *)
Definition hex_value (c : N) : option N :=
  if ((48 <=? c) && (c <=? 57))%N then Some (c - 48)%N
  else if ((65 <=? c) && (c <=? 70))%N then Some (c - 55)%N
  else if ((97 <=? c) && (c <=? 102))%N then Some (c - 87)%N
  else None.

Inductive UriToken :=
| TChar (c : N)
| TOctet (b : N)
| TBad.

(** Split into plain code units and [%XX] escapes; a [%] without two
    hexadecimal digits ends the scan with [TBad]. *)
Fixpoint uri_tokens (s : jsstring) : list UriToken :=
  match s with
  | [] => []
  | c :: t =>
      if (c =? 37)%N then
        match t with
        | h :: l :: t' =>
            match hex_value h, hex_value l with
            | Some a, Some b => TOctet (16 * a + b) :: uri_tokens t'
            | _, _ => [TBad]
            end
        | _ => [TBad]
        end
      else TChar c :: uri_tokens t
  end.

Definition is_continuation (b : N) : bool := ((128 <=? b) && (b <? 192))%N.

(** UTF16EncodeCodePoint *)
Definition utf16_encode (cp : N) : jsstring :=
  if (cp <? 65536)%N then [cp]
  else [(55296 + (cp - 65536) / 1024)%N; (56320 + (cp - 65536) mod 1024)%N].

Definition prepend (p : jsstring) (c : Outcome jsstring) : Outcome jsstring :=
  bind c (fun s => Returns (p ++ s)).

(** The escapes are read as UTF-8; an ill-formed sequence (a stray
    continuation octet, a missing one, an overlong form, a surrogate, a
    code point above U+10FFFF) is a URIError. *)
Fixpoint uri_decode (ts : list UriToken) : Outcome jsstring :=
  match ts with
  | [] => Returns []
  | TBad :: _ => Throws URIError
  | TChar c :: r => prepend [c] (uri_decode r)
  | TOctet b :: r =>
      if (b <? 128)%N then prepend [b] (uri_decode r)
      else if (b <? 192)%N then Throws URIError
      else if (b <? 224)%N then
        match r with
        | TOctet b2 :: r' =>
            let cp := ((b - 192) * 64 + (b2 - 128))%N in
            if is_continuation b2 && (128 <=? cp)%N
            then prepend (utf16_encode cp) (uri_decode r')
            else Throws URIError
        | _ => Throws URIError
        end
      else if (b <? 240)%N then
        match r with
        | TOctet b2 :: TOctet b3 :: r' =>
            let cp := ((b - 224) * 4096 + (b2 - 128) * 64 + (b3 - 128))%N in
            if is_continuation b2 && is_continuation b3 && (2048 <=? cp)%N
               && negb ((55296 <=? cp) && (cp <=? 57343))%N
            then prepend (utf16_encode cp) (uri_decode r')
            else Throws URIError
        | _ => Throws URIError
        end
      else if (b <? 248)%N then
        match r with
        | TOctet b2 :: TOctet b3 :: TOctet b4 :: r' =>
            let cp := ((b - 240) * 262144 + (b2 - 128) * 4096
                       + (b3 - 128) * 64 + (b4 - 128))%N in
            if is_continuation b2 && is_continuation b3 && is_continuation b4
               && (65536 <=? cp)%N && (cp <=? 1114111)%N
            then prepend (utf16_encode cp) (uri_decode r')
            else Throws URIError
        | _ => Throws URIError
        end
      else Throws URIError
  end.

Definition decodeURIComponent (s : jsstring) : Outcome jsstring :=
  uri_decode (uri_tokens s).

(** *** JSON payloads of the replies *)
Inductive Json :=
| JNull
| JBool (b : bool)
| JNum (n : JsNumber)  (* written as the shortest decimal text that reads
                          back as [n]: for an integer up to 2^53, its digits *)
| JStr (s : jsstring)
| JIsoDate (ms : Z)   (* the string [new Date(ms).toISOString()] *)
| JArr (items : list Json)
| JObj (fields : list (jsstring * Json)).

(** Does some object inside [j] have a property named [k]? *)
Fixpoint has_property (k : jsstring) (j : Json) : bool :=
  match j with
  | JArr items => existsb (has_property k) items
  | JObj fields =>
      existsb (fun kv => str_eqb (fst kv) k || has_property k (snd kv)) fields
  | _ => false
  end.

(** A reply: [reply.code(status).send(payload)]; [reply.send] alone is
    status 200. *)
Record Response := { status : Z; payload : Json }.

Definition message (status : Z) (text : string) : Response :=
  {| status := status; payload := JObj [(js "message", JStr (js text))] |}.

(** The reply of a route that also returns the new state. *)
Definition reply_of {S : Type} (o : Outcome (Response * S)) : Outcome Response :=
  bind o (fun out => Returns (fst out)).

End Js.
Export Js.

Notation "x <- c ;; k" := (bind c (fun x => k))
  (at level 61, c at next level, right associativity).

(** ** The relational store (tables [Tag] and [Receipt] of the migration,
       and the Prisma queries the routes issue) *)
Module Store.

Record Tag := {
  tag_id : jsstring;
  tag_username : jsstring;
  tag_walletAddress : jsstring;
  tag_apiKeyHash : jsstring;
  tag_createdAt : Z
}.

Record Receipt := {
  id : jsstring;
  signature : jsstring;
  memo : jsstring;
  fromTagId : jsstring;
  toTagId : jsstring;
  amountLamports : Z;      (* BIGINT *)
  createdAt : Z            (* DATETIME, in milliseconds *)
}.

(** The rows of each table, in the order in which the engine scans them. *)
Record Db := {
  tags : list Tag;
  receipts : list Receipt
}.

(** [prisma.tag.findMany()] *)
Definition tag_findMany (db : Db) : list Tag := tags db.

(** [prisma.tag.findUnique({ where: { username } })] *)
Definition tag_findUnique_username (db : Db) (u : jsstring) : option Tag :=
  find (fun t => str_eqb (tag_username t) u) (tags db).

Definition tag_findUnique_id (db : Db) (i : jsstring) : option Tag :=
  find (fun t => str_eqb (tag_id t) i) (tags db).

Definition set_wallet (w : jsstring) (t : Tag) : Tag :=
  {| tag_id := tag_id t; tag_username := tag_username t;
     tag_walletAddress := w; tag_apiKeyHash := tag_apiKeyHash t;
     tag_createdAt := tag_createdAt t |}.

(** [prisma.tag.update({ where: { id }, data: { walletAddress } })]: the
    updated row, or an exception when no row has that id. *)
Definition tag_update_wallet (db : Db) (i w : jsstring) : Outcome (Tag * Db) :=
  match tag_findUnique_id db i with
  | None => Throws StoreError
  | Some t =>
      Returns (set_wallet w t,
               {| tags := map (fun u => if str_eqb (tag_id u) i
                                        then set_wallet w u else u) (tags db);
                  receipts := receipts db |})
  end.

(** [prisma.receipt.findUnique({ where: { id } })] *)
Definition receipt_findUnique (db : Db) (i : jsstring) : option Receipt :=
  find (fun r => str_eqb (id r) i) (receipts db).

(** The column [amountLamports] is a BIGINT: a signed integer of 64 bits. *)
Definition BIGINT_MAX : Z := 2 ^ 63 - 1.
Definition BIGINT_MIN : Z := - 2 ^ 63.

Definition fits_BIGINT (z : Z) : bool := (BIGINT_MIN <=? z) && (z <=? BIGINT_MAX).

(** [prisma.receipt.create({ data })]: the store supplies the id and the
    creation time of the new row.  An amount that the column cannot hold
    makes the call raise, and no row is written. *)
Definition receipt_create (db : Db) (fresh_id : jsstring) (now : Z)
    (sig mem from to : jsstring) (amount : Z) : Outcome (Receipt * Db) :=
  if fits_BIGINT amount then
    let r := {| id := fresh_id; signature := sig; memo := mem;
                fromTagId := from; toTagId := to;
                amountLamports := amount; createdAt := now |} in
    Returns (r, {| tags := tags db; receipts := receipts db ++ [r] |})
  else Throws StoreError.

(** [where: { OR: [{ fromTagId: t }, { toTagId: t }] }] *)
Definition party_of (t : jsstring) (r : Receipt) : bool :=
  str_eqb (fromTagId r) t || str_eqb (toTagId r) t.

(** [orderBy: { createdAt: "desc" }].  The query names no second key:
    rows with equal [createdAt] come as the engine reads them, here in
    the order of the table. *)
Fixpoint insert_desc (r : Receipt) (l : list Receipt) : list Receipt :=
  match l with
  | [] => [r]
  | y :: l' =>
      if createdAt y <=? createdAt r then r :: l
      else y :: insert_desc r l'
  end.

Fixpoint orderBy_createdAt_desc (l : list Receipt) : list Receipt :=
  match l with
  | [] => []
  | r :: l' => insert_desc r (orderBy_createdAt_desc l')
  end.

(** [prisma.receipt.findMany({ where, orderBy })]: every receipt of which
    [tag] is a party, in the order of the query. *)
Definition receipt_findMany_all (db : Db) (tag : jsstring) : list Receipt :=
  orderBy_createdAt_desc (filter (party_of tag) (receipts db)).

(** [cursor: { id: c }]: the position of the row with id [c] in the
    ordered rows of the query.  The result starts at that row, and has no
    row at all when the row is not among them; the caller's [skip: 1] is
    what drops the cursor row itself. *)
Fixpoint from_cursor (c : jsstring) (rows : list Receipt) : list Receipt :=
  match rows with
  | [] => []
  | r :: rows' => if str_eqb (id r) c then rows else from_cursor c rows'
  end.

(** [prisma.receipt.findMany({ where, orderBy, take, cursor, skip })] *)
Definition receipt_findMany (db : Db) (tag : jsstring) (take : Z)
    (cursor : option jsstring) (skip : Z) : list Receipt :=
  let rows := receipt_findMany_all db tag in
  let rows := match cursor with
              | None => rows
              | Some c => from_cursor c rows
              end in
  firstn (Z.to_nat take) (skipn (Z.to_nat skip) rows).

(** [include: { fromTag: { select: { username: true } }, ... }]: the
    username of the referenced tag.  The foreign keys of the migration
    make the reference resolve; the empty string stands for a dangling
    one. *)
Definition username_of (db : Db) (i : jsstring) : jsstring :=
  match tag_findUnique_id db i with
  | Some t => tag_username t
  | None => []
  end.

(** The store with every credential hash blanked: what a reply may
    depend on. *)
Definition blank_hash (t : Tag) : Tag :=
  {| tag_id := tag_id t; tag_username := tag_username t;
     tag_walletAddress := tag_walletAddress t; tag_apiKeyHash := [];
     tag_createdAt := tag_createdAt t |}.

Definition without_hashes (db : Db) : Db :=
  {| tags := map blank_hash (tags db); receipts := receipts db |}.

End Store.
Export Store.

(** ** [lib/auth.ts] *)
Module Auth.

Record Identity := { ident_id : jsstring; ident_username : jsstring }.

(** [{ id: tag.id, username: tag.username }] *)
Definition identity_of (t : Tag) : Identity :=
  {| ident_id := tag_id t; ident_username := tag_username t |}.

Section WithArgon2.

(** [argon2.verify(hash, plain)], of the argon2 package: a boolean, or a
    rejection. *)
Variable argon2_verify : jsstring -> jsstring -> Outcome bool.

Definition verifyApiKey (plain hash : jsstring) : Outcome bool :=
  argon2_verify hash plain.

(** The stored hash of [t] does not verify [s]. *)
Definition rejects (s : jsstring) (t : Tag) : Prop :=
  verifyApiKey s (tag_apiKeyHash t) = Returns false.

(** The [for (const tag of tags)] loop of [resolveTagFromApiKey]. *)
Fixpoint scan (apiKey : jsstring) (l : list Tag) : Outcome (option Identity) :=
  match l with
  | [] => Returns None
  | tag :: rest =>
      ok <- verifyApiKey apiKey (tag_apiKeyHash tag) ;;
      if ok
      then Returns (Some (identity_of tag))
      else scan apiKey rest
  end.

Definition resolveTagFromApiKey (db : Db) (apiKey : JsValue)
    : Outcome (option Identity) :=
  match apiKey with
  | VString s =>
      if negb (truthy apiKey) || (str_length s <? 16) then Returns None
      else scan s (tag_findMany db)
  | _ => Returns None   (* [!apiKey || typeof apiKey !== "string"] *)
  end.

(** The preHandler hook: either a reply (401) that ends the request, or
    the identity set on the request. *)
Definition requireApiKey (db : Db) (header : JsValue)
    : Outcome (Response + Identity) :=
  tag <- resolveTagFromApiKey db header ;;
  match tag with
  | None => Returns (inl (message 401 "Invalid or missing API key"))
  | Some t => Returns (inr t)
  end.

End WithArgon2.

End Auth.
Export Auth.

(** ** [routes/receipts.ts] *)
Module Receipts.

(** [z.string().min(n)] *)
Definition z_string_min (n : Z) (v : JsValue) : option jsstring :=
  match v with
  | VString s => if str_length s <? n then None else Some s
  | _ => None
  end.

(** [z.number().int().nonnegative()] *)
Definition z_number_int_nonnegative (v : JsValue) : option JsNumber :=
  match v with
  | VNumber NaN => None
  | VNumber n => if isInteger n && geq0 n then Some n else None
  | _ => None
  end.

(** The properties of [request.body] that [createBody] reads; a property
    that is not there is [VUndefined]. *)
Record CreateRequestBody := {
  body_signature : JsValue;
  body_memo : JsValue;
  body_fromTag : JsValue;
  body_toTag : JsValue;
  body_amountLamports : JsValue
}.

(** [parsed.data] *)
Record CreateData := {
  data_signature : jsstring;
  data_memo : jsstring;
  data_fromTag : jsstring;
  data_toTag : jsstring;
  data_amountLamports : JsNumber
}.

(** [createBody.safeParse(request.body)]; [None] when the body is not an
    object or a property fails its schema. *)
Definition createBody (body : option CreateRequestBody) : option CreateData :=
  match body with
  | None => None
  | Some b =>
      match z_string_min 1 (body_signature b),
            z_string_min 0 (body_memo b),
            z_string_min 1 (body_fromTag b),
            z_string_min 1 (body_toTag b),
            z_number_int_nonnegative (body_amountLamports b) with
      | Some s, Some m, Some f, Some t, Some a =>
          Some {| data_signature := s; data_memo := m; data_fromTag := f;
                  data_toTag := t; data_amountLamports := a |}
      | _, _, _, _, _ => None
      end
  end.

(** [process.env.RECEIPT_BASE_URL ?? "https://api.moltr.app/r"] *)
Definition RECEIPT_BASE_URL (env : option jsstring) : jsstring :=
  match env with
  | Some v => v
  | None => js "https://api.moltr.app/r"
  end.

Definition DEFAULT_LIMIT : Z := 20.
Definition MAX_LIMIT : Z := 100.

(** [s.replace(/\/$/, "")] *)
Definition strip_trailing_slash (s : jsstring) : jsstring :=
  match rev s with
  | c :: t => if (c =? 47)%N then rev t else s
  | [] => s
  end.

Definition receipt_url (env : option jsstring) (i : jsstring) : jsstring :=
  strip_trailing_slash (RECEIPT_BASE_URL env) ++ js "/" ++ i.

(** A receipt row with the two [include]d usernames. *)
Record ReceiptRow := {
  row : Receipt;
  fromTag_username : jsstring;
  toTag_username : jsstring
}.

Definition include_tags (db : Db) (r : Receipt) : ReceiptRow :=
  {| row := r;
     fromTag_username := username_of db (fromTagId r);
     toTag_username := username_of db (toTagId r) |}.

(** The object [toReceiptItem] builds. *)
Record ReceiptItem := {
  item_id : jsstring;
  item_signature : jsstring;
  item_memo : jsstring;
  item_fromTag : jsstring;
  item_toTag : jsstring;
  item_amountLamports : JsNumber;
  item_createdAt : Z;
  item_url : jsstring
}.

Definition toReceiptItem (env : option jsstring) (r : ReceiptRow) : ReceiptItem :=
  {| item_id := id (row r);
     item_signature := signature (row r);
     item_memo := memo (row r);
     item_fromTag := fromTag_username r;
     item_toTag := toTag_username r;
     item_amountLamports := Number_of_BigInt (amountLamports (row r));
     item_createdAt := createdAt (row r);
     item_url := receipt_url env (id (row r)) |}.

Definition item_json (i : ReceiptItem) : Json :=
  JObj [ (js "id", JStr (item_id i));
         (js "signature", JStr (item_signature i));
         (js "memo", JStr (item_memo i));
         (js "fromTag", JStr (item_fromTag i));
         (js "toTag", JStr (item_toTag i));
         (js "amountLamports", JNum (item_amountLamports i));
         (js "createdAt", JIsoDate (item_createdAt i));
         (js "url", JStr (item_url i)) ].

(** The 400 reply of a failed [safeParse]; of its payload the route's
    reply schema keeps [message]. *)
Definition validation_failed : Response := message 400 "Validation failed".

(** POST /create.  [fresh_id] and [now] are the id and creation time the
    store gives the new row.  The handler catches nothing: when the store
    raises, so does the handler, and the server answers 500. *)
Definition create_route (env : option jsstring) (fresh_id : jsstring) (now : Z)
    (db : Db) (reqTag : Identity) (body : option CreateRequestBody)
    : Outcome (Response * Db) :=
  match createBody body with
  | None => Returns (validation_failed, db)
  | Some d =>
      if negb (str_eqb (ident_username reqTag) (data_fromTag d))
         && negb (str_eqb (ident_username reqTag) (data_toTag d))
      then Returns
             (message 403 "Only fromTag or toTag API key can create this receipt",
              db)
      else
        match tag_findUnique_username db (data_fromTag d),
              tag_findUnique_username db (data_toTag d) with
        | Some fromTag, Some toTag =>
            amount <- BigInt_of_Number (data_amountLamports d) ;;
            created <- receipt_create db fresh_id now (data_signature d)
                         (data_memo d) (tag_id fromTag) (tag_id toTag) amount ;;
            let '(receipt, db') := created in
            Returns
              ({| status := 201;
                  payload := JObj [ (js "id", JStr (id receipt));
                                    (js "url",
                                     JStr (receipt_url env (id receipt))) ] |},
               db')
        | _, _ => Returns (message 400 "fromTag or toTag not found", db)
        end
  end.

(** [Math.min(MAX_LIMIT, Math.max(1, parseInt(limit ?? "20", 10) || 20))] *)
Definition limit_of (query_limit : option jsstring) : Z :=
  let text := match query_limit with
              | Some s => s
              | None => js "20"
              end in
  let parsed := match parseInt10 text with
                | Some n => if n =? 0 then DEFAULT_LIMIT else n
                | None => DEFAULT_LIMIT
                end in
  Z.min MAX_LIMIT (Z.max 1 parsed).

(** [request.query.cursor?.trim() || undefined] *)
Definition cursor_of (query_cursor : option jsstring) : option jsstring :=
  match query_cursor with
  | Some s =>
      match trim s with
      | [] => None
      | t => Some t
      end
  | None => None
  end.

(** [items[items.length - 1].id] ([None] on an empty array, where the
    source does not evaluate it). *)
Definition last_id (items : list ReceiptItem) : option jsstring :=
  option_map item_id (last (map Some items) None).

(** GET /: the items of the page and [nextCursor]. *)
Definition list_page (env : option jsstring) (db : Db) (reqTag : Identity)
    (query_limit query_cursor : option jsstring)
    : list ReceiptItem * option jsstring :=
  let limit := limit_of query_limit in
  let cursor := cursor_of query_cursor in
  let receipts :=
    receipt_findMany db (ident_id reqTag) (limit + 1) cursor
                     (match cursor with Some _ => 1 | None => 0 end) in
  let hasMore := limit <? Z.of_nat (length receipts) in
  let items :=
    map (fun r => toReceiptItem env (include_tags db r))
        (firstn (Z.to_nat limit) receipts) in
  let nextCursor :=
    if hasMore && (0 <? Z.of_nat (length items))
    then last_id items
    else None in
  (items, nextCursor).

(** [nextCursor ? { nextCursor } : {}]: the cursor the reply shows. *)
Definition shown_cursor (page : list ReceiptItem * option jsstring)
    : option jsstring :=
  match snd page with
  | Some c => if truthy (VString c) then Some c else None
  | None => None
  end.

(** [{ items, ...(nextCursor ? { nextCursor } : {}) }] *)
Definition list_payload (page : list ReceiptItem * option jsstring) : Json :=
  JObj ((js "items", JArr (map item_json (fst page)))
        :: match shown_cursor page with
           | Some c => [(js "nextCursor", JStr c)]
           | None => []
           end).

(** A client that reads the first page and then follows [nextCursor]
    until a reply shows none; [None] when [fuel] requests do not reach
    the end. *)
Fixpoint all_pages (fuel : nat) (env : option jsstring) (db : Db)
    (reqTag : Identity) (query_limit query_cursor : option jsstring)
    : option (list (list ReceiptItem)) :=
  match fuel with
  | O => None
  | S fuel' =>
      let page := list_page env db reqTag query_limit query_cursor in
      match shown_cursor page with
      | None => Some [fst page]
      | Some c =>
          option_map (cons (fst page))
                     (all_pages fuel' env db reqTag query_limit (Some c))
      end
  end.

(** An id as the store generates them: not empty, no white space around. *)
Definition clean_id (i : jsstring) : Prop := i <> [] /\ trim i = i.

Definition list_route (env : option jsstring) (db : Db) (reqTag : Identity)
    (query_limit query_cursor : option jsstring) : Response :=
  {| status := 200;
     payload := list_payload (list_page env db reqTag query_limit query_cursor) |}.

(** GET /:id *)
Definition get_route (env : option jsstring) (db : Db) (reqTag : Identity)
    (i : jsstring) : Response :=
  match receipt_findUnique db i with
  | None => message 404 "Receipt not found"
  | Some receipt =>
      if negb (str_eqb (fromTagId receipt) (ident_id reqTag))
         && negb (str_eqb (toTagId receipt) (ident_id reqTag))
      then message 404 "Receipt not found"
      else {| status := 200;
              payload := item_json (toReceiptItem env (include_tags db receipt)) |}
  end.

End Receipts.

(** ** [routes/tags.ts] *)
Module Tags.

(** [/^[a-z0-9_]+$/] *)
Definition username_class (c : N) : bool :=
  (((97 <=? c) && (c <=? 122)) || ((48 <=? c) && (c <=? 57)) || (c =? 95))%N.

Definition USERNAME_PATTERN : Re := Plus (Class username_class).

(** [updateWalletBody.safeParse(request.body)]: the [walletAddress]
    property of the body, [None] when the body is not an object. *)
Definition updateWalletBody (body : option JsValue) : option jsstring :=
  match body with
  | Some v => Receipts.z_string_min 1 v
  | None => None
  end.

(** PATCH /me, behind [requireApiKey]. *)
Definition update_wallet_route (db : Db) (tag : Identity)
    (body : option JsValue) : Outcome (Response * Db) :=
  match updateWalletBody body with
  | None => Returns (Receipts.validation_failed, db)
  | Some walletAddress =>
      upd <- tag_update_wallet db (ident_id tag) walletAddress ;;
      let '(updated, db') := upd in
      Returns ({| status := 200;
                  payload :=
                    JObj [ (js "username", JStr (tag_username updated));
                           (js "walletAddress",
                            JStr (tag_walletAddress updated)) ] |},
               db')
  end.

(** GET /:username *)
Definition lookup_route (db : Db) (param : jsstring) : Response :=
  let username := toLowerCase param in
  if negb (truthy (VString username))
     || (str_length username <? 3) || (20 <? str_length username)
     || negb (test USERNAME_PATTERN username)
  then message 400 "Invalid username"
  else
    match tag_findUnique_username db username with
    | None => message 404 "Tag not found"
    | Some tag =>
        {| status := 200;
           payload :=
             JObj [ (js "username", JStr (tag_username tag));
                    (js "walletAddress", JStr (tag_walletAddress tag)) ] |}
    end.

End Tags.

(** ** [routes/objects.ts] and [lib/storage.ts] *)
Module Objects.

Definition MAX_BODY_SIZE : Z := 2 * 1024 * 1024.

(** [/^tokens\/[^/]+\/(logo\.png|metadata\.json)$/] *)
Definition ALLOWED_PREFIX : Re :=
  Cat (Lit (js "tokens/"))
      (Cat (Plus (NotChr 47))
           (Cat (Chr 47)
                (Alt (Lit (js "logo.png")) (Lit (js "metadata.json"))))).

(** [s.replace(/^\/+/, "")] *)
Fixpoint strip_leading_slashes (s : jsstring) : jsstring :=
  match s with
  | c :: t => if (c =? 47)%N then strip_leading_slashes t else s
  | [] => []
  end.

(** [request.body] as the handler finds it: nothing, a Buffer of the
    octets received, or another value (a string) parsed from them. *)
Inductive Body :=
| NoBody
| Buffer (octets : list N)
| NotBuffer (octets : list N).

(** An object of the bucket: key, body, content type. *)
Record StoredObject := {
  object_key : jsstring;
  object_body : list N;
  object_type : jsstring
}.

(** The bucket: the objects put so far, latest first, and whether the
    service answers. *)
Record Bucket := {
  objects : list StoredObject;
  reachable : bool
}.

(** [uploadObject]: [s3.send(new PutObjectCommand(...))] *)
Definition uploadObject (b : Bucket) (key : jsstring) (body : list N)
    (contentType : jsstring) : Outcome Bucket :=
  if reachable b
  then Returns {| objects := {| object_key := key; object_body := body;
                                object_type := contentType |} :: objects b;
                  reachable := true |}
  else Throws StoreError.

(** [getPublicUrl]; [cdn] and [s3_public] are CDN_BASE_URL and
    S3_PUBLIC_BASE of the environment. *)
Definition getPublicUrl (cdn s3_public : option jsstring) (key : jsstring)
    : jsstring :=
  let base := match cdn, s3_public with
              | Some v, _ => v
              | None, Some v => v
              | None, None => js "https://cdn.moltr.app"
              end in
  Receipts.strip_trailing_slash base ++ js "/" ++ key.

(** A PUT request as the server receives it. *)
Record PutRequest := {
  param_star : option jsstring;        (* [request.params["*"]] *)
  content_type : option jsstring;      (* [request.headers["content-type"]] *)
  chunked : bool;                      (* a transfer-encoding header is there *)
  octets_sent : list N                 (* the payload *)
}.

(** The media type of a content-type header: the text before the
    parameters, without surrounding white space, in lower case. *)
Fixpoint before_parameters (header : jsstring) : jsstring :=
  match header with
  | [] => []
  | c :: t => if (c =? 59)%N then [] else c :: before_parameters t
  end.

Definition media_type (header : jsstring) : jsstring :=
  toLowerCase (trim (before_parameters header)).

(** The content types for which [index.ts] registers a parser with
    [parseAs: "buffer"] in front of the objects routes. *)
Definition BUFFER_TYPES : list jsstring :=
  [ js "application/octet-stream"; js "image/png"; js "image/jpeg";
    js "image/webp"; js "application/json" ].

(** The parser the server finds for a content type: one of the
    registered ones, or its own parser of [text/plain], which yields a
    string. *)
Inductive Parser := ParseAsBuffer | ParseAsString.

Definition parser_for (header : jsstring) : option Parser :=
  let m := media_type header in
  if existsb (str_eqb m) BUFFER_TYPES then Some ParseAsBuffer
  else if str_eqb m (js "text/plain") then Some ParseAsString
  else None.

(** What the server makes of the payload before the handler runs.  A
    request without content type and without payload has no body; a
    payload without content type, or under a content type that has no
    parser, is not parsed ([None]): the server answers 415. *)
Definition request_body (request : PutRequest) : option Body :=
  match content_type request with
  | None =>
      match octets_sent request with
      | [] => if chunked request then None else Some NoBody
      | _ :: _ => None
      end
  | Some header =>
      match parser_for header with
      | Some ParseAsBuffer => Some (Buffer (octets_sent request))
      | Some ParseAsString => Some (NotBuffer (octets_sent request))
      | None => None
      end
  end.

(** [request.params["*"] ?? ""] and
    [request.headers["content-type"] ?? "application/octet-stream"] *)
Definition rawKey_of (request : PutRequest) : jsstring :=
  match param_star request with
  | Some k => k
  | None => []
  end.

Definition contentType_of (request : PutRequest) : jsstring :=
  match content_type request with
  | Some c => c
  | None => js "application/octet-stream"
  end.

(** The handler of PUT /*; [body] is [request.body]. *)
Definition put_handler (cdn s3_public : option jsstring) (bucket : Bucket)
    (request : PutRequest) (body : Body) : Outcome (Response * Bucket) :=
  let rawKey := rawKey_of request in
  decoded <- decodeURIComponent rawKey ;;
  let key := strip_leading_slashes decoded in
  if negb (test ALLOWED_PREFIX key)
  then Returns
         (message 400
            "Invalid key. Allowed: tokens/<mint>/logo.png or tokens/<mint>/metadata.json",
          bucket)
  else
    let contentType := contentType_of request in
    match body with
    | Buffer octets =>
        if MAX_BODY_SIZE <? Z.of_nat (length octets)
        then Returns (message 413 "Payload too large (max 2MB)", bucket)
        else if Z.of_nat (length octets) =? 0
        then Returns (message 400 "Empty body not allowed", bucket)
        else
          match uploadObject bucket key octets contentType with
          | Throws _ => Returns (message 502 "Upload failed", bucket)
          | Returns bucket' =>
              Returns ({| status := 200;
                          payload :=
                            JObj [ (js "ok", JBool true);
                                   (js "publicUrl",
                                    JStr (getPublicUrl cdn s3_public key)) ] |},
                       bucket')
          end
    | _ => Returns (message 400 "Missing or invalid body (expected binary)",
                    bucket)
    end.

(** The route.  The server answers 415 to a payload it has no parser
    for; [bodyLimit: MAX_BODY_SIZE] makes it answer 413 to a longer
    payload while it reads it; then the handler runs, and an exception of
    the handler is answered with 500.  Of these replies of the server the
    status is what is kept here; their payload is reduced to a message. *)
Definition put_route (cdn s3_public : option jsstring) (bucket : Bucket)
    (request : PutRequest) : Response * Bucket :=
  match request_body request with
  | None => (message 415 "Unsupported Media Type", bucket)
  | Some body =>
      if MAX_BODY_SIZE <? Z.of_nat (length (octets_sent request))
      then (message 413 "Request body is too large", bucket)
      else
        match put_handler cdn s3_public bucket request body with
        | Returns out => out
        | Throws _ => (message 500 "Internal Server Error", bucket)
        end
  end.

End Objects.

(** ** Data for the examples *)
Module Samples.

(** A stand-in for the hash library: a digest is [$] followed by the
    secret; a string that does not start with [$] is not a digest, and
    verifying against it raises, as the parser of PHC strings of the
    argon2 package does. *)
Definition sample_verify (hash plain : jsstring) : Outcome bool :=
  match hash with
  | c :: rest => if (c =? 36)%N then Returns (str_eqb rest plain)
                 else Throws TypeError
  | [] => Throws TypeError
  end.

Definition alice_key : jsstring := js "alice-secret-key-0001".
Definition bob_key : jsstring := js "bob-secret-key-000002".

Definition mk_tag (i u w h : string) : Tag :=
  {| tag_id := js i; tag_username := js u; tag_walletAddress := js w;
     tag_apiKeyHash := js h; tag_createdAt := 0 |}.

Definition alice : Tag := mk_tag "t1" "alice" "walletA" "$alice-secret-key-0001".
Definition bob : Tag := mk_tag "t2" "bob" "walletB" "$bob-secret-key-000002".
Definition carol : Tag := mk_tag "t3" "carol" "walletC" "$carol-secret-key-0003".

(** A row whose hash column does not hold a digest. *)
Definition mallory : Tag := mk_tag "t4" "mallory" "walletM" "not-a-digest".

Definition mk_receipt (i from to : string) (amount time : Z) : Receipt :=
  {| id := js i; signature := js "sig"; memo := js "";
     fromTagId := js from; toTagId := js to;
     amountLamports := amount; createdAt := time |}.

Definition db0 : Db :=
  {| tags := [alice; bob; carol];
     receipts := [mk_receipt "r1" "t1" "t2" 5 1000;
                  mk_receipt "r2" "t2" "t1" 7 2000;
                  mk_receipt "r3" "t2" "t3" 9 3000] |}.

Definition db_malformed : Db :=
  {| tags := [mallory; alice]; receipts := [] |}.

Definition empty_bucket : Objects.Bucket :=
  {| Objects.objects := []; Objects.reachable := true |}.

Definition put_request (key : string) (octets : list N) : Objects.PutRequest :=
  {| Objects.param_star := Some (js key);
     Objects.content_type := Some (js "image/png");
     Objects.chunked := false;
     Objects.octets_sent := octets |}.

(** Three receipts between alice and bob created at the same instant,
    in two scan orders. *)
Definition db_ties : Db :=
  {| tags := [alice; bob; carol];
     receipts := [mk_receipt "rb" "t1" "t2" 1 1000;
                  mk_receipt "ra" "t1" "t2" 2 1000;
                  mk_receipt "rc" "t1" "t2" 3 1000] |}.

Definition db_ties' : Db :=
  {| tags := [alice; bob; carol];
     receipts := [mk_receipt "ra" "t1" "t2" 2 1000;
                  mk_receipt "rb" "t1" "t2" 1 1000;
                  mk_receipt "rc" "t1" "t2" 3 1000] |}.

(** Twenty-five receipts of alice, created one after the other. *)
Definition db25 : Db :=
  {| tags := [alice; bob; carol];
     receipts :=
       map (fun n => {| id := js "r" ++ [N.of_nat (65 + n)];
                        signature := js "sig"; memo := js "";
                        fromTagId := js "t1"; toTagId := js "t2";
                        amountLamports := Z.of_nat n;
                        createdAt := 1000 + Z.of_nat n |})
           (seq 0 25) |}.

Definition create_body (from to : string) (amount : JsNumber)
    : option Receipts.CreateRequestBody :=
  Some {| Receipts.body_signature := VString (js "sig");
          Receipts.body_memo := VString (js "");
          Receipts.body_fromTag := VString (js from);
          Receipts.body_toTag := VString (js to);
          Receipts.body_amountLamports := VNumber amount |}.

End Samples.

(** ** [lib/auth.ts]: the keys, and the hook in front of a handler *)
Module ApiKeys.

(** The base64url alphabet: [A-Z], [a-z], [0-9], [-], [_]. *)
Definition base64url_char (i : N) : N :=
  (if i <? 26 then 65 + i
   else if i <? 52 then 97 + (i - 26)
   else if i <? 62 then 48 + (i - 52)
   else if i =? 62 then 45
   else 95)%N.

(** [buffer.toString("base64url")]: three octets give four characters;
    one or two octets left over give two or three; there is no padding. *)
Fixpoint base64url (octets : list N) : jsstring :=
  match octets with
  | [] => []
  | [a] =>
      [base64url_char (a / 4); base64url_char ((a mod 4) * 16)]%N
  | [a; b] =>
      [base64url_char (a / 4);
       base64url_char ((a mod 4) * 16 + b / 16);
       base64url_char ((b mod 16) * 4)]%N
  | a :: b :: c :: rest =>
      [base64url_char (a / 4);
       base64url_char ((a mod 4) * 16 + b / 16);
       base64url_char ((b mod 16) * 4 + c / 64);
       base64url_char (c mod 64)]%N ++ base64url rest
  end.

(** The characters of that alphabet. *)
Definition base64url_class (c : N) : bool :=
  (((65 <=? c) && (c <=? 90)) || ((97 <=? c) && (c <=? 122))
   || ((48 <=? c) && (c <=? 57)) || (c =? 45) || (c =? 95))%N.

(** [generateApiKey]; [random] is what [randomBytes(32)] returned. *)
Definition generateApiKey (random : list N) : jsstring := base64url random.

(** What [randomBytes(32)] returns: 32 octets. *)
Definition random32 (random : list N) : Prop :=
  length random = 32%nat /\ Forall (fun b => (b < 256)%N) random.

(** [getApiKeyFromRequest]: [typeof raw === "string" ? raw : undefined] *)
Definition getApiKeyFromRequest (header : JsValue) : JsValue :=
  match header with
  | VString s => VString s
  | _ => VUndefined
  end.

Section WithArgon2.

(** [argon2.hash(plain, { type: argon2.argon2id })]; [salt] is the salt
    the library draws for this call. *)
Variable argon2_hash : list N -> jsstring -> Outcome jsstring.
Variable argon2_verify : jsstring -> jsstring -> Outcome bool.

Definition hashApiKey (salt : list N) (plain : jsstring) : Outcome jsstring :=
  argon2_hash salt plain.

(** A handler behind the preHandler hook [requireApiKey]: the hook's
    reply ends the request, the state being what it was; otherwise the
    handler runs with [request.tag].  The server checks a request against
    the schema of its route before it runs the hook. *)
Definition behind_requireApiKey {S : Type} (db : Db) (header : JsValue)
    (state : S) (handler : Identity -> Outcome (Response * S))
    : Outcome (Response * S) :=
  r <- requireApiKey argon2_verify db header ;;
  match r with
  | inl reply => Returns (reply, state)
  | inr tag => handler tag
  end.

(** The two routes that read receipts.  Their schemas ask for strings
    ([limit], [cursor], [id]), which a query or path parameter given once
    is: the hook is the first to answer. *)
Definition GET_receipts (env : option jsstring) (db : Db) (header : JsValue)
    (query_limit query_cursor : option jsstring) : Outcome (Response * Db) :=
  behind_requireApiKey db header db
    (fun tag =>
       Returns (Receipts.list_route env db tag query_limit query_cursor, db)).

Definition GET_receipts_id (env : option jsstring) (db : Db)
    (header : JsValue) (i : jsstring) : Outcome (Response * Db) :=
  behind_requireApiKey db header db
    (fun tag => Returns (Receipts.get_route env db tag i, db)).

End WithArgon2.

End ApiKeys.

(** ** [routes/tags.ts]: POST /register *)
Module Register.

(** The properties of [request.body] that [registerBody] reads. *)
Record RegisterRequestBody := {
  body_username : JsValue;
  body_walletAddress : JsValue
}.

(** [parsed.data] *)
Record RegisterData := {
  data_username : jsstring;
  data_walletAddress : jsstring
}.

(** [z.string().min(3).max(20).regex(/^[a-z0-9_]+$/).transform(toLowerCase)] *)
Definition z_username (v : JsValue) : option jsstring :=
  match v with
  | VString s =>
      if (str_length s <? 3) || (20 <? str_length s)
         || negb (test Tags.USERNAME_PATTERN s)
      then None
      else Some (toLowerCase s)
  | _ => None
  end.

(** [registerBody.safeParse(request.body)] *)
Definition registerBody (body : option RegisterRequestBody)
    : option RegisterData :=
  match body with
  | None => None
  | Some b =>
      match z_username (body_username b),
            Receipts.z_string_min 1 (body_walletAddress b) with
      | Some u, Some w =>
          Some {| data_username := u; data_walletAddress := w |}
      | _, _ => None
      end
  end.

(** [prisma.tag.create({ data })]: the store supplies the id and the
    creation time; the unique index on [username] refuses a second row
    with the same username. *)
Definition tag_create (db : Db) (fresh_id : jsstring) (now : Z)
    (username walletAddress apiKeyHash : jsstring) : Outcome (Tag * Db) :=
  match tag_findUnique_username db username with
  | Some _ => Throws StoreError
  | None =>
      let t := {| tag_id := fresh_id; tag_username := username;
                  tag_walletAddress := walletAddress;
                  tag_apiKeyHash := apiKeyHash; tag_createdAt := now |} in
      Returns (t, {| tags := tags db ++ [t]; receipts := receipts db |})
  end.

Section WithArgon2.

Variable argon2_hash : list N -> jsstring -> Outcome jsstring.

(** POST /register.  [salt] and [random] are the octets drawn for the
    hash and for the key; [fresh_id] and [now] those the store gives the
    new row. *)
Definition register_route (salt random : list N) (fresh_id : jsstring)
    (now : Z) (db : Db) (body : option RegisterRequestBody)
    : Outcome (Response * Db) :=
  match registerBody body with
  | None => Returns (Receipts.validation_failed, db)
  | Some d =>
      match tag_findUnique_username db (data_username d) with
      | Some _ => Returns (message 409 "Username already registered", db)
      | None =>
          let apiKey := ApiKeys.generateApiKey random in
          apiKeyHash <- ApiKeys.hashApiKey argon2_hash salt apiKey ;;
          created <- tag_create db fresh_id now (data_username d)
                                (data_walletAddress d) apiKeyHash ;;
          let '(tag, db') := created in
          Returns
            ({| status := 201;
                payload :=
                  JObj [ (js "username", JStr (tag_username tag));
                         (js "walletAddress", JStr (tag_walletAddress tag));
                         (js "apiKey", JStr apiKey) ] |},
             db')
      end
  end.

End WithArgon2.

End Register.

(** ** [lib/health.ts] and GET /health *)
Module Health.

(** The two variables of the environment the checks read. *)
Record Env := {
  S3_ACCESS_KEY_ID : option jsstring;
  S3_BUCKET : option jsstring
}.

(** Truthiness of [process.env.X]. *)
Definition is_set (v : option jsstring) : bool :=
  match v with
  | Some s => truthy (VString s)
  | None => false
  end.

(** [checkDb]; [queryRaw] is the outcome of [prisma.$queryRaw`SELECT 1`]. *)
Definition checkDb (queryRaw : Outcome unit) : bool :=
  match queryRaw with
  | Returns _ => true
  | Throws _ => false
  end.

(** [checkS3]; [headBucket] is the outcome of the HeadBucket command,
    which is sent only when both variables are set. *)
Definition checkS3 (env : Env) (headBucket : Outcome unit) : bool :=
  if negb (is_set (S3_ACCESS_KEY_ID env)) || negb (is_set (S3_BUCKET env))
  then true
  else
    match headBucket with
    | Returns _ => true
    | Throws _ => false
    end.

Definition health_payload (ok : bool) (db s3 : string) : Json :=
  JObj [ (js "ok", JBool ok); (js "db", JStr (js db)); (js "s3", JStr (js s3)) ].

(** GET /health *)
Definition health_route (env : Env) (queryRaw headBucket : Outcome unit)
    : Response :=
  let dbOk := checkDb queryRaw in
  let s3Ok := checkS3 env headBucket in
  let s3Status :=
    if negb (is_set (S3_ACCESS_KEY_ID env)) then "skipped"%string
    else if s3Ok then "ok"%string else "error"%string in
  if negb dbOk
  then {| status := 503; payload := health_payload false "error" s3Status |}
  else if is_set (S3_ACCESS_KEY_ID env) && negb s3Ok
  then {| status := 503; payload := health_payload false "ok" "error" |}
  else {| status := 200; payload := health_payload true "ok" s3Status |}.

End Health.

(** ** More data for the examples *)
Module MoreSamples.

(** The hash that [Samples.sample_verify] verifies. *)
Definition sample_hash (salt : list N) (plain : jsstring) : Outcome jsstring :=
  Returns (36%N :: plain).

Definition sample_random : list N := map N.of_nat (seq 100 32).
Definition other_random : list N := map N.of_nat (seq 101 32).

Definition register_body (username wallet : string)
    : option Register.RegisterRequestBody :=
  Some {| Register.body_username := VString (js username);
          Register.body_walletAddress := VString (js wallet) |}.

Definition dave : Tag :=
  {| tag_id := js "t9"; tag_username := js "dave";
     tag_walletAddress := js "walletD";
     tag_apiKeyHash := 36%N :: ApiKeys.generateApiKey sample_random;
     tag_createdAt := 5000 |}.

(** The store and the reply after dave's registration in [Samples.db0]. *)
Definition db_with_dave : Db :=
  {| tags := tags Samples.db0 ++ [dave]; receipts := receipts Samples.db0 |}.

Definition dave_registered : Response :=
  {| status := 201;
     payload :=
       JObj [ (js "username", JStr (js "dave"));
              (js "walletAddress", JStr (js "walletD"));
              (js "apiKey", JStr (ApiKeys.generateApiKey sample_random)) ] |}.

(** The store and the reply after alice creates receipt r9 to bob. *)
Definition r9 : Receipt :=
  {| id := js "r9"; signature := js "sig"; memo := js "";
     fromTagId := js "t1"; toTagId := js "t2";
     amountLamports := 5; createdAt := 4000 |}.

Definition db_with_r9 : Db :=
  {| tags := tags Samples.db0; receipts := receipts Samples.db0 ++ [r9] |}.

Definition r9_created : Response :=
  {| status := 201;
     payload := JObj [ (js "id", JStr (js "r9"));
                       (js "url", JStr (Receipts.receipt_url None (js "r9"))) ] |}.

(** The store and the reply after bob moves to another wallet. *)
Definition db_bob_moved : Db :=
  {| tags := [Samples.alice; set_wallet (js "walletB2") Samples.bob;
              Samples.carol];
     receipts := receipts Samples.db0 |}.

Definition bob_moved : Response :=
  {| status := 200;
     payload := JObj [ (js "username", JStr (js "bob"));
                       (js "walletAddress", JStr (js "walletB2")) ] |}.

End MoreSamples.
(* ================================================================== *)
(** * Part II: properties                                               *)
(* ================================================================== *)

Lemma str_eqb_eq (a b : jsstring) : str_eqb a b = true <-> a = b.
Proof.
  revert b; induction a as [|x a IH]; intros [|y b]; simpl;
    try (split; [discriminate | congruence]); try tauto.
  rewrite andb_true_iff, N.eqb_eq, IH. split.
  - intros [-> ->]; reflexivity.
  - intros [= -> ->]; auto.
Qed.

Lemma str_eqb_spec (a b : jsstring) : reflect (a = b) (str_eqb a b).
Proof. apply iff_reflect. symmetry. apply str_eqb_eq. Qed.

Lemma str_eqb_refl (a : jsstring) : str_eqb a a = true.
Proof. apply str_eqb_eq; reflexivity. Qed.

Lemma str_eqb_neq (a b : jsstring) : str_eqb a b = false <-> a <> b.
Proof.
  rewrite <- str_eqb_eq. destruct (str_eqb a b); split; congruence.
Qed.

(** ** Identity resolution *)
Section AuthFacts.

Variable argon2_verify : jsstring -> jsstring -> Outcome bool.

Local Abbreviation verify := (verifyApiKey argon2_verify).
Local Abbreviation resolve := (resolveTagFromApiKey argon2_verify).
Local Abbreviation rejects := (rejects argon2_verify).

Lemma scan_first (s : jsstring) (pre : list Tag) (t : Tag) (post : list Tag) :
  Forall (rejects s) pre ->
  scan argon2_verify s (pre ++ t :: post)
  = (ok <- verify s (tag_apiKeyHash t) ;;
     if ok then Returns (Some (identity_of t))
     else scan argon2_verify s post).
Proof.
  induction 1 as [|u pre Hu _ IH]; simpl.
  - reflexivity.
  - unfold Auth.rejects in Hu. rewrite Hu. simpl. exact IH.
Qed.


Lemma scan_some_inv (s : jsstring) (l : list Tag) (i : Identity) :
  scan argon2_verify s l = Returns (Some i) ->
  exists pre t post,
    l = pre ++ t :: post /\ Forall (rejects s) pre
    /\ verify s (tag_apiKeyHash t) = Returns true /\ i = identity_of t.
Proof.
  induction l as [|u l IH]; simpl; [discriminate|].
  destruct (verify s (tag_apiKeyHash u)) as [[|]|e] eqn:Hu; simpl.
  - intros [= <-]. exists [], u, l. repeat split; auto.
  - intros H. destruct (IH H) as (pre & t & post & -> & Hpre & Ht & ->).
    exists (u :: pre), t, post. repeat split; auto.
  - discriminate.
Qed.

Lemma resolve_long_key (db : Db) (s : jsstring) :
  16 <= str_length s ->
  resolve db (VString s) = scan argon2_verify s (tags db).
Proof.
  intros H. unfold resolveTagFromApiKey, tag_findMany.
  assert (Hs : s <> []) by (intros ->; cbn in H; lia).
  destruct s as [|c s]; [congruence|].
  cbn [truthy negb orb]. destruct (str_length (c :: s) <? 16) eqn:E.
  - apply Z.ltb_lt in E. lia.
  - reflexivity.
Qed.


(** C2, as the code has it. [verifyApiKey] answers what
    [argon2.verify(hash, plain)] answers, a rejection included: it has no
    handler of its own.  [resolveTagFromApiKey] answers an identity only
    for a row whose stored hash the library verified as true, and a
    rejection met during the scan ends the resolution (and the preHandler
    hook) with that rejection: it is never taken for a success. *)
Theorem verifyApiKey_propagates (db : Db) :
  (forall plain hash b,
      argon2_verify hash plain = Returns b -> verify plain hash = Returns b)
  /\ (forall plain hash e,
      argon2_verify hash plain = Throws e -> verify plain hash = Throws e)
  /\ (forall key i,
      resolve db key = Returns (Some i) ->
      exists s pre t post,
        key = VString s /\ tag_findMany db = pre ++ t :: post
        /\ Forall (rejects s) pre
        /\ argon2_verify (tag_apiKeyHash t) s = Returns true
        /\ i = identity_of t)
  /\ (forall s pre t post e,
      16 <= str_length s ->
      tag_findMany db = pre ++ t :: post ->
      Forall (rejects s) pre ->
      argon2_verify (tag_apiKeyHash t) s = Throws e ->
      resolve db (VString s) = Throws e
      /\ requireApiKey argon2_verify db (VString s) = Throws e).
Proof.
  split; [intros; assumption|]. split; [intros; assumption|]. split.
  - intros key i H. unfold resolveTagFromApiKey in H.
    destruct key as [| | | |s|]; try discriminate.
    destruct (negb (truthy (VString s)) || (str_length s <? 16));
      [discriminate|].
    destruct (scan_some_inv _ _ _ H) as (pre & t & post & Hl & Hpre & Ht & ->).
    exists s, pre, t, post. auto.
  - intros s pre t post e Hs Hdb Hpre Ht.
    assert (R : resolve db (VString s) = Throws e).
    { rewrite resolve_long_key by assumption.
      unfold tag_findMany in Hdb. rewrite Hdb, scan_first by assumption.
      unfold verifyApiKey. rewrite Ht. reflexivity. }
    split; [exact R|]. unfold requireApiKey. rewrite R. reflexivity.
Qed.

End AuthFacts.


Lemma verifyApiKey_propagates_witness :
  resolveTagFromApiKey Samples.sample_verify Samples.db_malformed
                       (VString Samples.alice_key) = Throws TypeError
  /\ requireApiKey Samples.sample_verify Samples.db_malformed
                   (VString Samples.alice_key) = Throws TypeError.
Proof.
  apply (proj2 (proj2 (proj2
           (verifyApiKey_propagates Samples.sample_verify Samples.db_malformed)))
         Samples.alice_key [] Samples.mallory [Samples.alice] TypeError).
  - vm_compute. discriminate.
  - reflexivity.
  - constructor.
  - reflexivity.
Defined.

(** C2, as stated, fails: with a library that raises on a string that is
    not a digest, [verifyApiKey] raises on such a stored hash instead of
    answering false, and so does the resolution that meets it (here before
    the row of the very secret presented). *)
Lemma verifyApiKey_malformed_hash_throws :
  verifyApiKey Samples.sample_verify Samples.alice_key (js "not-a-digest")
  = Throws TypeError
  /\ ~ (forall verify plain hash,
          exists b : bool, verifyApiKey verify plain hash = Returns b)
  /\ resolveTagFromApiKey Samples.sample_verify Samples.db_malformed
                          (VString Samples.alice_key) = Throws TypeError.
Proof.
  split; [reflexivity|]. split; [|reflexivity].
  intros H.
  destruct (H Samples.sample_verify Samples.alice_key (js "not-a-digest"))
    as [b Hb].
  discriminate Hb.
Qed.

(** ** Receipts: reading one receipt *)

(** C3. GET /:id answers 200 with the receipt only when the caller is its
    [fromTag] or its [toTag]; for a receipt of which the caller is neither,
    the reply (status 404 and payload) is the reply to an id that no
    receipt has, whatever the store, the caller and the id of that other
    request. *)
Theorem get_hides_foreign_receipts
    (env : option jsstring) (db : Db) (C : Identity) (i : jsstring) :
  (status (Receipts.get_route env db C i) = 200 ->
     exists r, receipt_findUnique db i = Some r
               /\ (fromTagId r = ident_id C \/ toTagId r = ident_id C)
               /\ payload (Receipts.get_route env db C i)
                  = Receipts.item_json
                      (Receipts.toReceiptItem env (Receipts.include_tags db r)))
  /\ (forall r, receipt_findUnique db i = Some r ->
        fromTagId r <> ident_id C -> toTagId r <> ident_id C ->
        status (Receipts.get_route env db C i) = 404
        /\ forall env' db' C' i',
             receipt_findUnique db' i' = None ->
             Receipts.get_route env db C i = Receipts.get_route env' db' C' i').
Proof.
  unfold Receipts.get_route. split.
  - destruct (receipt_findUnique db i) as [r|]; [|discriminate].
    destruct (str_eqb (fromTagId r) (ident_id C)) eqn:Ef; simpl.
    + intros _. exists r. apply str_eqb_eq in Ef. auto.
    + destruct (str_eqb (toTagId r) (ident_id C)) eqn:Et; simpl.
      * intros _. exists r. apply str_eqb_eq in Et. auto.
      * discriminate.
  - intros r Hr Hf Ht. rewrite Hr.
    apply str_eqb_neq in Hf, Ht. rewrite Hf, Ht. simpl.
    split; [reflexivity|].
    intros env' db' C' i' Hnone. rewrite Hnone. reflexivity.
Qed.

Lemma get_hides_foreign_receipts_witness :
  status (Receipts.get_route None Samples.db0
            (identity_of Samples.carol) (js "r1")) = 404
  /\ Receipts.get_route None Samples.db0 (identity_of Samples.carol) (js "r1")
     = Receipts.get_route None Samples.db0 (identity_of Samples.carol)
                          (js "no-such-id").
Proof.
  destruct (proj2 (get_hides_foreign_receipts None Samples.db0
                     (identity_of Samples.carol) (js "r1"))
              (Samples.mk_receipt "r1" "t1" "t2" 5 1000))
    as [H404 Hsame].
  - reflexivity.
  - vm_compute. discriminate.
  - vm_compute. discriminate.
  - split; [exact H404|]. apply Hsame. reflexivity.
Defined.

(** ** Receipts: creation *)

Lemma createBody_amount (body : option Receipts.CreateRequestBody)
    (d : Receipts.CreateData) :
  Receipts.createBody body = Some d ->
  exists z, Receipts.data_amountLamports d = NInt z /\ 0 <= z
            /\ exists b, body = Some b
                         /\ Receipts.body_amountLamports b = VNumber (NInt z).
Proof.
  unfold Receipts.createBody. destruct body as [b|]; [|discriminate].
  destruct (Receipts.z_string_min 1 (Receipts.body_signature b));
    [|discriminate].
  destruct (Receipts.z_string_min 0 (Receipts.body_memo b)); [|discriminate].
  destruct (Receipts.z_string_min 1 (Receipts.body_fromTag b));
    [|discriminate].
  destruct (Receipts.z_string_min 1 (Receipts.body_toTag b)); [|discriminate].
  destruct (Receipts.z_number_int_nonnegative (Receipts.body_amountLamports b))
    as [a|] eqn:Ha; [|discriminate].
  intros [= <-]. simpl.
  unfold Receipts.z_number_int_nonnegative in Ha.
  destruct (Receipts.body_amountLamports b) as [| | |n| |] eqn:Hv;
    try discriminate.
  destruct n as [|neg|z|m k]; simpl in Ha; try discriminate.
  destruct (0 <=? z) eqn:Hz; [|discriminate].
  injection Ha as <-. exists z. split; [reflexivity|].
  split; [apply Z.leb_le, Hz|]. exists b. split; [reflexivity | exact Hv].
Qed.

(** What POST /create does with a body that [createBody] accepts, case
    by case. *)
Lemma create_route_cases (env : option jsstring) (fresh_id : jsstring)
    (now : Z) (db : Db) (reqTag : Identity)
    (body : option Receipts.CreateRequestBody) (d : Receipts.CreateData) (z : Z) :
  Receipts.createBody body = Some d ->
  Receipts.data_amountLamports d = NInt z ->
  Receipts.create_route env fresh_id now db reqTag body
  = if negb (str_eqb (ident_username reqTag) (Receipts.data_fromTag d))
       && negb (str_eqb (ident_username reqTag) (Receipts.data_toTag d))
    then Returns
           (message 403 "Only fromTag or toTag API key can create this receipt",
            db)
    else
      match tag_findUnique_username db (Receipts.data_fromTag d),
            tag_findUnique_username db (Receipts.data_toTag d) with
      | Some f, Some t =>
          if fits_BIGINT z
          then
            Returns
              ({| status := 201;
                  payload :=
                    JObj [ (js "id", JStr fresh_id);
                           (js "url", JStr (Receipts.receipt_url env fresh_id)) ] |},
               {| tags := tags db;
                  receipts :=
                    receipts db
                    ++ [ {| id := fresh_id;
                            signature := Receipts.data_signature d;
                            memo := Receipts.data_memo d;
                            fromTagId := tag_id f; toTagId := tag_id t;
                            amountLamports := z; createdAt := now |} ] |})
          else Throws StoreError
      | _, _ => Returns (message 400 "fromTag or toTag not found", db)
      end.
Proof.
  intros Hd Hz. unfold Receipts.create_route. rewrite Hd.
  destruct (negb _ && negb _); [reflexivity|].
  destruct (tag_findUnique_username db (Receipts.data_fromTag d)) as [f|];
    [|reflexivity].
  destruct (tag_findUnique_username db (Receipts.data_toTag d)) as [t|];
    [|reflexivity].
  rewrite Hz. cbn [BigInt_of_Number bind]. unfold receipt_create.
  destruct (fits_BIGINT z); reflexivity.
Qed.

(** C4. For a request body that [createBody] accepts, POST /create
    answers 201 only when the caller's username is the named [fromTag] or
    [toTag] and both usernames are registered, and then the store has one
    more receipt, between these two tags; every other answer leaves the
    store as it was.  A caller who is neither party gets 403; when a
    named username is not registered the request fails (with 403 or 400).
    For a party and two registered usernames the receipt is created when
    the store can hold the amount; when it cannot, the store raises and
    the route with it, no receipt being created. *)
Theorem create_requires_party_and_known_tags
    (env : option jsstring) (fresh_id : jsstring) (now : Z)
    (db : Db) (reqTag : Identity)
    (body : option Receipts.CreateRequestBody) (d : Receipts.CreateData) :
  Receipts.createBody body = Some d ->
  let run := Receipts.create_route env fresh_id now db reqTag body in
  let party := ident_username reqTag = Receipts.data_fromTag d
               \/ ident_username reqTag = Receipts.data_toTag d in
  (forall resp db',
      run = Returns (resp, db') ->
      (status resp = 201 ->
         party
         /\ exists f t r,
              tag_findUnique_username db (Receipts.data_fromTag d) = Some f
              /\ tag_findUnique_username db (Receipts.data_toTag d) = Some t
              /\ fromTagId r = tag_id f /\ toTagId r = tag_id t
              /\ id r = fresh_id
              /\ receipts db' = receipts db ++ [r] /\ tags db' = tags db)
      /\ (status resp <> 201 -> db' = db))
  /\ (~ party -> exists resp, run = Returns (resp, db) /\ status resp = 403)
  /\ (tag_findUnique_username db (Receipts.data_fromTag d) = None
      \/ tag_findUnique_username db (Receipts.data_toTag d) = None ->
      exists resp, run = Returns (resp, db)
                   /\ (status resp = 403 \/ status resp = 400))
  /\ (party ->
      forall f t,
        tag_findUnique_username db (Receipts.data_fromTag d) = Some f ->
        tag_findUnique_username db (Receipts.data_toTag d) = Some t ->
        forall z, Receipts.data_amountLamports d = NInt z ->
          (z <= BIGINT_MAX ->
           exists resp db', run = Returns (resp, db') /\ status resp = 201)
          /\ (BIGINT_MAX < z -> run = Throws StoreError)).
Proof.
  intros Hd run party.
  destruct (createBody_amount _ _ Hd) as (z & Hz & Hpos & _).
  assert (Hrun := create_route_cases env fresh_id now db reqTag body d z Hd Hz).
  fold run in Hrun. unfold party.
  destruct (str_eqb_spec (ident_username reqTag) (Receipts.data_fromTag d))
    as [Ef|Ef];
  destruct (str_eqb_spec (ident_username reqTag) (Receipts.data_toTag d))
    as [Et|Et];
    cbn [negb andb] in Hrun.
  4: { rewrite Hrun. split; [|split; [|split]].
       - intros resp db' [= <- <-]. cbn. split; [discriminate | reflexivity].
       - intros _. eexists. split; reflexivity.
       - intros _. eexists. split; [reflexivity | now left].
       - intros [H|H]; contradiction. }
  all: destruct (tag_findUnique_username db (Receipts.data_fromTag d))
         as [f|] eqn:Hf;
       destruct (tag_findUnique_username db (Receipts.data_toTag d))
         as [t|] eqn:Ht.
  all: split; [|split; [|split]].
  all: try (intros Hn; exfalso; apply Hn; tauto).
  all: try (intros [H|H]; discriminate H).
  all: try (intros _; rewrite Hrun; eexists; split; [reflexivity | now right]).
  all: try (intros _ f' t' H; discriminate H).
  all: try (intros _ f' t' _ H; discriminate H).
  all: try (rewrite Hrun; intros resp db' [= <- <-]; cbn;
            split; [discriminate | reflexivity]).
  all: try (intros resp db' Hret; rewrite Hrun in Hret;
            destruct (fits_BIGINT z); [|discriminate Hret];
            injection Hret as <- <-; cbn;
            split; [|intros H; exfalso; now apply H];
            intros _; split; [tauto|];
            eexists f, t, _; cbn; repeat split; reflexivity).
  all: intros _ f' t' _ _ z' Hz'; rewrite Hz in Hz'; injection Hz' as <-;
       rewrite Hrun; unfold fits_BIGINT, BIGINT_MIN;
       split; intros Hb.
  all: try (assert (E : (- 2 ^ 63 <=? z) && (z <=? BIGINT_MAX) = true)
              by (apply andb_true_intro; split; apply Z.leb_le; lia);
            rewrite E; eexists _, _; split; reflexivity).
  all: assert (E : (- 2 ^ 63 <=? z) && (z <=? BIGINT_MAX) = false)
         by (apply andb_false_intro2; apply Z.leb_gt; lia);
       rewrite E; reflexivity.
Qed.

Lemma create_requires_party_and_known_tags_witness :
  (exists resp db',
     Receipts.create_route None (js "r9") 4000 Samples.db0
       (identity_of Samples.alice) (Samples.create_body "alice" "bob" (NInt 5))
     = Returns (resp, db')
     /\ status resp = 201)
  /\ exists resp,
       Receipts.create_route None (js "r9") 4000 Samples.db0
         (identity_of Samples.carol) (Samples.create_body "alice" "bob" (NInt 5))
       = Returns (resp, Samples.db0)
       /\ status resp = 403.
Proof.
  split.
  - apply (proj2 (proj2 (proj2
             (create_requires_party_and_known_tags None (js "r9") 4000
                Samples.db0 (identity_of Samples.alice)
                (Samples.create_body "alice" "bob" (NInt 5))
                {| Receipts.data_signature := js "sig";
                   Receipts.data_memo := js "";
                   Receipts.data_fromTag := js "alice";
                   Receipts.data_toTag := js "bob";
                   Receipts.data_amountLamports := NInt 5 |} eq_refl)))
             (or_introl eq_refl) Samples.alice Samples.bob eq_refl eq_refl
             5 eq_refl).
    vm_compute. discriminate.
  - apply (proj1 (proj2
             (create_requires_party_and_known_tags None (js "r9") 4000
                Samples.db0 (identity_of Samples.carol)
                (Samples.create_body "alice" "bob" (NInt 5))
                {| Receipts.data_signature := js "sig";
                   Receipts.data_memo := js "";
                   Receipts.data_fromTag := js "alice";
                   Receipts.data_toTag := js "bob";
                   Receipts.data_amountLamports := NInt 5 |} eq_refl))).
    intros [H|H]; vm_compute in H; discriminate H.
Defined.

(** ** No reply carries a credential hash *)

Lemma find_map_same {A : Type} (f : A -> A) (p : A -> bool) (l : list A) :
  (forall x, p (f x) = p x) ->
  find p (map f l) = option_map f (find p l).
Proof.
  intros Hp. induction l as [|x l IH]; simpl; [reflexivity|].
  rewrite Hp. destruct (p x); [reflexivity | exact IH].
Qed.

Lemma username_of_without_hashes (db : Db) (i : jsstring) :
  username_of (without_hashes db) i = username_of db i.
Proof.
  unfold username_of, tag_findUnique_id, without_hashes; simpl.
  rewrite find_map_same by reflexivity.
  destruct (find _ (tags db)); reflexivity.
Qed.

Lemma include_tags_without_hashes (db : Db) (r : Receipt) :
  Receipts.include_tags (without_hashes db) r = Receipts.include_tags db r.
Proof.
  unfold Receipts.include_tags. now rewrite !username_of_without_hashes.
Qed.

Lemma item_json_no_property (k : jsstring) (i : Receipts.ReceiptItem) :
  existsb (fun key => str_eqb key k)
          (map js ["id"; "signature"; "memo"; "fromTag"; "toTag";
                   "amountLamports"; "createdAt"; "url"]%string) = false ->
  has_property k (Receipts.item_json i) = false.
Proof.
  cbn. intros H. repeat rewrite orb_false_r in *.
  repeat (apply orb_false_iff in H; destruct H as [? H]).
  repeat (apply orb_false_iff; split); assumption.
Qed.

Lemma items_no_property (k : jsstring) (l : list Receipts.ReceiptItem) :
  (forall i, has_property k (Receipts.item_json i) = false) ->
  existsb (has_property k) (map Receipts.item_json l) = false.
Proof.
  intros H. induction l as [|i l IH]; cbn [map existsb]; [reflexivity|].
  now rewrite H, IH.
Qed.

Lemma list_page_without_hashes (env : option jsstring) (db : Db)
    (C : Identity) (ql qc : option jsstring) :
  Receipts.list_page env (without_hashes db) C ql qc
  = Receipts.list_page env db C ql qc.
Proof.
  unfold Receipts.list_page.
  assert (E : forall c,
             receipt_findMany (without_hashes db) (ident_id C)
               (Receipts.limit_of ql + 1) c
               match c with Some _ => 1 | None => 0 end
             = receipt_findMany db (ident_id C) (Receipts.limit_of ql + 1) c
                 match c with Some _ => 1 | None => 0 end)
    by reflexivity.
  rewrite E.
  assert (M : forall l,
             map (fun r => Receipts.toReceiptItem env
                             (Receipts.include_tags (without_hashes db) r)) l
             = map (fun r => Receipts.toReceiptItem env
                               (Receipts.include_tags db r)) l).
  { intros l. apply map_ext. intros r.
    now rewrite include_tags_without_hashes. }
  rewrite M. reflexivity.
Qed.

(** C7. The replies of the tag lookup, of the wallet update, of the
    receipt list and of the receipt read have no property [apiKeyHash]
    anywhere, and are the replies the same request gets from the store
    with every credential hash blanked: no stored hash reaches a reply.
    A found tag is answered with [username] and [walletAddress] alone, as
    is an updated one.  The reply of the preHandler hook to a request it
    refuses is a fixed message. *)
Theorem replies_carry_no_hash (env : option jsstring) (db : Db) :
  (forall param,
      let reply := Tags.lookup_route db param in
      has_property (js "apiKeyHash") (payload reply) = false
      /\ reply = Tags.lookup_route (without_hashes db) param
      /\ (status reply = 200 ->
          exists u w, payload reply = JObj [ (js "username", JStr u);
                                             (js "walletAddress", JStr w) ]))
  /\ (forall tag body,
      reply_of (Tags.update_wallet_route db tag body)
      = reply_of (Tags.update_wallet_route (without_hashes db) tag body)
      /\ forall reply, reply_of (Tags.update_wallet_route db tag body)
                       = Returns reply ->
           has_property (js "apiKeyHash") (payload reply) = false
           /\ (status reply = 200 ->
               exists u w, payload reply = JObj [ (js "username", JStr u);
                                                  (js "walletAddress", JStr w) ]))
  /\ (forall C ql qc,
      let reply := Receipts.list_route env db C ql qc in
      has_property (js "apiKeyHash") (payload reply) = false
      /\ reply = Receipts.list_route env (without_hashes db) C ql qc)
  /\ (forall C i,
      let reply := Receipts.get_route env db C i in
      has_property (js "apiKeyHash") (payload reply) = false
      /\ reply = Receipts.get_route env (without_hashes db) C i)
  /\ (forall argon2_verify header reply,
      requireApiKey argon2_verify db header = Returns (inl reply) ->
      reply = message 401 "Invalid or missing API key").
Proof.
  split; [|split; [|split; [|split]]].
  - intros param reply. subst reply. unfold Tags.lookup_route.
    destruct (negb _ || _ || _ || _).
    + repeat split; try reflexivity. discriminate.
    + unfold tag_findUnique_username, without_hashes; simpl.
      rewrite find_map_same by reflexivity.
      destruct (find _ (tags db)) as [t|]; simpl.
      * repeat split; eauto.
      * repeat split; try reflexivity. discriminate.
  - intros tag body. unfold Tags.update_wallet_route.
    destruct (Tags.updateWalletBody body) as [w|]; simpl.
    + unfold tag_update_wallet, tag_findUnique_id, without_hashes; simpl.
      rewrite find_map_same by reflexivity.
      destruct (find _ (tags db)) as [t|]; simpl.
      * split; [reflexivity|]. intros reply [= <-]. simpl. eauto.
      * split; [reflexivity|]. discriminate.
    + split; [reflexivity|]. intros reply [= <-].
      split; [reflexivity | discriminate].
  - intros C ql qc reply. subst reply. unfold Receipts.list_route.
    rewrite list_page_without_hashes. split; [|reflexivity].
    destruct (Receipts.list_page env db C ql qc) as [items next].
    unfold Receipts.list_payload. cbn [payload fst snd].
    assert (I : existsb (has_property (js "apiKeyHash"))
                        (map Receipts.item_json items) = false).
    { apply items_no_property. intros i.
      apply item_json_no_property. reflexivity. }
    destruct (Receipts.shown_cursor (items, next)) as [c|];
      cbn [has_property existsb fst snd]; rewrite I; reflexivity.
  - intros C i reply. subst reply. unfold Receipts.get_route.
    change (receipt_findUnique (without_hashes db) i)
      with (receipt_findUnique db i).
    destruct (receipt_findUnique db i) as [r|]; [|split; reflexivity].
    destruct (negb _ && negb _); [split; reflexivity|].
    rewrite include_tags_without_hashes. split; [|reflexivity].
    apply item_json_no_property. reflexivity.
  - intros verify header reply. unfold requireApiKey.
    destruct (resolveTagFromApiKey verify db header) as [[t|]|e]; cbn;
      [discriminate | intros [= <-]; reflexivity | discriminate].
Qed.

Lemma replies_carry_no_hash_witness :
  exists u w,
    payload (Tags.lookup_route Samples.db0 (js "Alice"))
    = JObj [ (js "username", JStr u); (js "walletAddress", JStr w) ].
Proof.
  apply (proj1 (replies_carry_no_hash None Samples.db0) (js "Alice")).
  reflexivity.
Defined.

(** ** Numbers and amounts *)

Lemma round53_exact (m e : Z) :
  0 <= m < 2 ^ 53 -> 0 <= e -> round53 (m * 2 ^ e) = m * 2 ^ e.
Proof.
  intros [Hm0 Hm] He. unfold round53.
  destruct (Z.eq_dec m 0) as [->|Hnz]; [reflexivity|].
  assert (Hpos : 0 < m) by lia.
  rewrite Z.log2_mul_pow2 by assumption.
  assert (Hlog : Z.log2 m < 53) by (apply Z.log2_lt_pow2; assumption).
  assert (Hlog0 : 0 <= Z.log2 m) by apply Z.log2_nonneg.
  destruct (e + Z.log2 m + 1 <=? 53) eqn:Hb; [reflexivity|].
  apply Z.leb_gt in Hb.
  set (sh := e + Z.log2 m + 1 - 53).
  assert (Hsh : 0 < sh <= e) by (unfold sh; lia).
  assert (Hsplit : m * 2 ^ e = (m * 2 ^ (e - sh)) * 2 ^ sh).
  { rewrite <- Z.mul_assoc, <- Z.pow_add_r by lia. f_equal. f_equal. lia. }
  assert (H2 : 0 < 2 ^ sh) by (apply Z.pow_pos_nonneg; lia).
  assert (Hr : Z.land (m * 2 ^ e) (Z.ones sh) = 0).
  { rewrite Z.land_ones by lia. rewrite Hsplit. apply Z.mod_mul. lia. }
  rewrite Hr.
  assert (Hhalf : 0 < Z.shiftl 1 (sh - 1)).
  { rewrite Z.shiftl_1_l. apply Z.pow_pos_nonneg; lia. }
  assert (E1 : (Z.shiftl 1 (sh - 1) <? 0) = false) by (apply Z.ltb_ge; lia).
  assert (E2 : (0 =? Z.shiftl 1 (sh - 1)) = false) by (apply Z.eqb_neq; lia).
  rewrite E1, E2. cbn [orb andb].
  rewrite Z.shiftr_div_pow2, Z.shiftl_mul_pow2 by lia.
  rewrite Hsplit at 1. rewrite Z.div_mul by lia. symmetry. exact Hsplit.
Qed.

(** [Number(b)] is [b] itself when [b] is a binary64 value. *)
Lemma Number_of_BigInt_exact (z : Z) :
  binary64 z -> Number_of_BigInt z = NInt z.
Proof.
  intros (m & e & Hm & He & ->). unfold Number_of_BigInt.
  rewrite Z.abs_mul, (Z.abs_eq (2 ^ e)) by (apply Z.pow_nonneg; lia).
  rewrite round53_exact by (try split; first [apply Z.abs_nonneg | lia]).
  assert (Hlt : Z.abs m * 2 ^ e < 2 ^ 1024).
  { change 1024 with (53 + 971). rewrite Z.pow_add_r by lia.
    assert (0 < 2 ^ e) by (apply Z.pow_pos_nonneg; lia).
    assert (2 ^ e <= 2 ^ 971) by (apply Z.pow_le_mono_r; lia).
    apply Z.lt_le_trans with (2 ^ 53 * 2 ^ e).
    - apply Z.mul_lt_mono_pos_r; assumption.
    - apply Z.mul_le_mono_nonneg_l; [apply Z.pow_nonneg; lia | assumption]. }
  apply Z.leb_gt in Hlt. rewrite Hlt.
  f_equal. transitivity (Z.sgn (m * 2 ^ e) * Z.abs (m * 2 ^ e)).
  - f_equal. rewrite Z.abs_mul, (Z.abs_eq (2 ^ e)); [reflexivity|].
    apply Z.pow_nonneg; lia.
  - rewrite Z.mul_comm. apply Z.abs_sgn.
Qed.

(** ** The ordered query *)

Lemma prefix_incl {A : Type} (n : nat) : forall l : list A, incl (firstn n l) l.
Proof.
  induction n as [|n IH]; intros [|a l] x; simpl; try tauto.
  intros [->|H]; [now left | right; now apply IH].
Qed.

Lemma suffix_incl {A : Type} (k : nat) : forall l : list A, incl (skipn k l) l.
Proof.
  induction k as [|k IH]; intros [|a l] x; simpl; try tauto.
  intros H. right. now apply IH.
Qed.

Lemma insert_desc_perm (r : Receipt) (l : list Receipt) :
  Permutation (insert_desc r l) (r :: l).
Proof.
  induction l as [|y l IH]; simpl; [reflexivity|].
  destruct (createdAt y <=? createdAt r); [reflexivity|].
  rewrite IH. apply perm_swap.
Qed.

Lemma orderBy_perm (l : list Receipt) :
  Permutation (orderBy_createdAt_desc l) l.
Proof.
  induction l as [|r l IH]; simpl; [reflexivity|].
  rewrite insert_desc_perm. now constructor.
Qed.

(** The rows from the cursor on are the end of the ordered rows. *)
Lemma from_cursor_suffix (c : jsstring) (rows : list Receipt) :
  exists before, rows = before ++ from_cursor c rows.
Proof.
  induction rows as [|r rows [before IH]]; cbn [from_cursor].
  - exists []. reflexivity.
  - destruct (str_eqb (id r) c).
    + exists []. reflexivity.
    + exists (r :: before). cbn [app]. now rewrite <- IH.
Qed.

Lemma findMany_incl (db : Db) (tag : jsstring) (take : Z)
    (cursor : option jsstring) (skip : Z) (r : Receipt) :
  In r (receipt_findMany db tag take cursor skip) ->
  In r (receipts db) /\ party_of tag r = true.
Proof.
  unfold receipt_findMany. intros H.
  apply prefix_incl, suffix_incl in H.
  assert (H' : In r (receipt_findMany_all db tag)).
  { destruct cursor as [c|]; [|exact H].
    destruct (from_cursor_suffix c (receipt_findMany_all db tag)) as [before E].
    rewrite E. apply in_or_app. now right. }
  apply (Permutation_in _ (orderBy_perm _)) in H'.
  apply filter_In in H'. exact H'.
Qed.

Lemma findUnique_In (db : Db) (i : jsstring) (r : Receipt) :
  receipt_findUnique db i = Some r -> In r (receipts db) /\ id r = i.
Proof.
  unfold receipt_findUnique. intros H. apply find_some in H.
  destruct H as [Hin Heq]. apply str_eqb_eq in Heq. auto.
Qed.

Lemma findUnique_app_new (db : Db) (r : Receipt) :
  receipt_findUnique db (id r) = None ->
  find (fun x => str_eqb (id x) (id r)) (receipts db ++ [r]) = Some r.
Proof.
  unfold receipt_findUnique.
  induction (receipts db) as [|x l IH]; simpl.
  - intros _. now rewrite str_eqb_refl.
  - destruct (str_eqb (id x) (id r)); [discriminate | exact IH].
Qed.

Lemma upto_2_53_binary64 (n : Z) : 0 <= n <= 2 ^ 53 -> binary64 n.
Proof.
  intros Hn. destruct (Z.eq_dec n (2 ^ 53)) as [->|Hne].
  - exists 1, 53. cbn. lia.
  - exists n, 0. rewrite Z.abs_eq by lia. cbn. lia.
Qed.

(** C8, as the code has it. The schema of [amountLamports] accepts
    exactly the numbers that are non-negative integers, and sets no upper
    bound.  The store does: a receipt is created only for an amount up to
    2^63 - 1, and stores the integer of the accepted number; from 2^63
    on the store raises, and the route with it, no receipt being created.
    For an amount from 0 to 2^53 the number read back through GET /:id
    after the creation is that integer, as is what [toReceiptItem]
    answers for a stored row; every item of a list page or of GET /:id
    is [toReceiptItem] of a stored row; and an integer from 0 to 2^53
    written in the request is the number the route receives. *)
Theorem amount_is_kept_exactly (env : option jsstring) (db : Db) :
  (forall v n,
      Receipts.z_number_int_nonnegative v = Some n
      <-> exists z, v = VNumber (NInt z) /\ n = NInt z /\ 0 <= z)
  /\ (forall body d,
      Receipts.createBody body = Some d ->
      exists z b, body = Some b /\ 0 <= z
                  /\ Receipts.body_amountLamports b = VNumber (NInt z)
                  /\ Receipts.data_amountLamports d = NInt z)
  /\ (forall fresh_id now reqTag body d z resp db',
      Receipts.createBody body = Some d ->
      Receipts.data_amountLamports d = NInt z ->
      receipt_findUnique db fresh_id = None ->
      Receipts.create_route env fresh_id now db reqTag body
      = Returns (resp, db') ->
      status resp = 201 ->
      z <= BIGINT_MAX
      /\ exists r,
           receipts db' = receipts db ++ [r] /\ id r = fresh_id
           /\ amountLamports r = z
           /\ (z <= 2 ^ 53 ->
               forall C, ident_id C = fromTagId r \/ ident_id C = toTagId r ->
                 exists item,
                   Receipts.get_route env db' C fresh_id
                   = {| status := 200; payload := Receipts.item_json item |}
                   /\ Receipts.item_amountLamports item = NInt z))
  /\ (forall fresh_id now reqTag body d z f t,
      Receipts.createBody body = Some d ->
      Receipts.data_amountLamports d = NInt z ->
      ident_username reqTag = Receipts.data_fromTag d
      \/ ident_username reqTag = Receipts.data_toTag d ->
      tag_findUnique_username db (Receipts.data_fromTag d) = Some f ->
      tag_findUnique_username db (Receipts.data_toTag d) = Some t ->
      2 ^ 63 <= z ->
      Receipts.create_route env fresh_id now db reqTag body = Throws StoreError)
  /\ (forall r,
      0 <= amountLamports r <= 2 ^ 53 ->
      Receipts.item_amountLamports
        (Receipts.toReceiptItem env (Receipts.include_tags db r))
      = NInt (amountLamports r))
  /\ (forall C i,
      status (Receipts.get_route env db C i) = 200 ->
      exists r, In r (receipts db) /\ id r = i
                /\ payload (Receipts.get_route env db C i)
                   = Receipts.item_json
                       (Receipts.toReceiptItem env (Receipts.include_tags db r)))
  /\ (forall C ql qc item,
      In item (fst (Receipts.list_page env db C ql qc)) ->
      exists r, In r (receipts db)
                /\ item = Receipts.toReceiptItem env (Receipts.include_tags db r))
  /\ (forall n, 0 <= n <= 2 ^ 53 -> JSON_number n = NInt n).
Proof.
  split; [|split; [|split; [|split; [|split; [|split; [|split]]]]]].
  - intros v n. unfold Receipts.z_number_int_nonnegative. split.
    + destruct v as [| | |m| |]; try discriminate.
      destruct m as [|neg|z|m k]; simpl; try discriminate.
      destruct (0 <=? z) eqn:Hz; [|discriminate].
      intros [= <-]. exists z. apply Z.leb_le in Hz. auto.
    + intros (z & -> & -> & Hz). simpl.
      apply Z.leb_le in Hz. now rewrite Hz.
  - intros body d Hd.
    destruct (createBody_amount _ _ Hd) as (z & Hz & Hpos & b & Hb & Hv).
    exists z, b. auto.
  - intros fresh_id now reqTag body d z resp db' Hd Hz Hfresh Hrun H201.
    destruct (createBody_amount _ _ Hd) as (z' & Hz' & Hpos & _).
    rewrite Hz in Hz'. injection Hz' as <-.
    rewrite (create_route_cases _ _ _ _ _ _ _ _ Hd Hz) in Hrun.
    destruct (negb _ && negb _) in Hrun.
    { injection Hrun as <- <-. discriminate H201. }
    destruct (tag_findUnique_username db (Receipts.data_fromTag d)) as [f|];
      [|injection Hrun as <- <-; discriminate H201].
    destruct (tag_findUnique_username db (Receipts.data_toTag d)) as [t|];
      [|injection Hrun as <- <-; discriminate H201].
    destruct (fits_BIGINT z) eqn:Hfit; [|discriminate Hrun].
    injection Hrun as <- <-.
    unfold fits_BIGINT in Hfit. apply andb_prop in Hfit.
    destruct Hfit as [_ Hmax]. apply Z.leb_le in Hmax.
    split; [exact Hmax|].
    eexists. split; [reflexivity|]. split; [reflexivity|].
    split; [reflexivity|]. cbn [fromTagId toTagId].
    intros Hsmall C HC. eexists. unfold Receipts.get_route, receipt_findUnique.
    cbn [receipts].
    match goal with
    | |- context [receipts db ++ [?r]] =>
        pose proof (findUnique_app_new db r Hfresh) as Hnew
    end.
    cbn [id] in Hnew. rewrite Hnew.
    cbn [fromTagId toTagId].
    assert (Hparty : negb (str_eqb (tag_id f) (ident_id C))
                     && negb (str_eqb (tag_id t) (ident_id C)) = false).
    { destruct HC as [->| ->]; rewrite str_eqb_refl; cbn;
        [reflexivity | apply andb_false_r]. }
    rewrite Hparty. split; [reflexivity|].
    cbn. apply Number_of_BigInt_exact, upto_2_53_binary64. lia.
  - intros fresh_id now reqTag body d z f t Hd Hz Hparty Hf Ht Hbig.
    rewrite (create_route_cases _ _ _ _ _ _ _ _ Hd Hz), Hf, Ht.
    assert (E : negb (str_eqb (ident_username reqTag) (Receipts.data_fromTag d))
                && negb (str_eqb (ident_username reqTag) (Receipts.data_toTag d))
                = false).
    { destruct Hparty as [->| ->]; rewrite str_eqb_refl; cbn;
        [reflexivity | apply andb_false_r]. }
    rewrite E.
    assert (Hfit : fits_BIGINT z = false).
    { unfold fits_BIGINT, BIGINT_MAX. apply andb_false_intro2.
      apply Z.leb_gt. lia. }
    now rewrite Hfit.
  - intros r Hr. cbn. apply Number_of_BigInt_exact, upto_2_53_binary64.
    exact Hr.
  - intros C i. unfold Receipts.get_route.
    destruct (receipt_findUnique db i) as [r|] eqn:Hr; [|discriminate].
    destruct (negb _ && negb _); [discriminate|]. intros _.
    exists r. destruct (findUnique_In _ _ _ Hr). auto.
  - intros C ql qc item. unfold Receipts.list_page. cbn [fst].
    intros H. apply in_map_iff in H. destruct H as (r & <- & Hin).
    apply prefix_incl, findMany_incl in Hin. exists r. tauto.
  - intros n Hn. now apply Number_of_BigInt_exact, upto_2_53_binary64.
Qed.

(** C8, as stated, fails in two ways.  An integer that is not a binary64
    value is not kept: 2^53 + 1, written in the request, is received as
    2^53, stored as 2^53 and read back as 2^53.  And a non-negative
    integer is not accepted whatever its size: with 2^63 the creation
    raises. *)
Lemma large_amounts_are_rounded_or_refused :
  let alice := identity_of Samples.alice in
  (let supplied := 2 ^ 53 + 1 in
   exists resp db' item,
     Receipts.create_route None (js "r9") 4000 Samples.db0 alice
       (Samples.create_body "alice" "bob" (JSON_number supplied))
     = Returns (resp, db')
     /\ status resp = 201
     /\ Receipts.get_route None db' alice (js "r9")
        = {| status := 200; payload := Receipts.item_json item |}
     /\ Receipts.item_amountLamports item = NInt (2 ^ 53)
     /\ Receipts.item_amountLamports item <> NInt supplied)
  /\ Receipts.z_number_int_nonnegative (VNumber (JSON_number (2 ^ 63)))
     = Some (NInt (2 ^ 63))
  /\ Receipts.create_route None (js "r9") 4000 Samples.db0 alice
       (Samples.create_body "alice" "bob" (JSON_number (2 ^ 63)))
     = Throws StoreError.
Proof.
  cbv zeta. split; [|split; reflexivity].
  eexists _, _, _. split; [reflexivity|].
  split; [reflexivity|]. split; [reflexivity|].
  split; [reflexivity|]. vm_compute. discriminate.
Qed.

Lemma amount_is_kept_exactly_witness :
  Receipts.item_amountLamports
    (Receipts.toReceiptItem None
       (Receipts.include_tags Samples.db0
          (Samples.mk_receipt "r7" "t1" "t2" (2 ^ 53) 5000)))
  = NInt (2 ^ 53)
  /\ Receipts.create_route None (js "r9") 4000 Samples.db0
       (identity_of Samples.alice)
       (Samples.create_body "alice" "bob" (NInt (2 ^ 63)))
     = Throws StoreError.
Proof.
  split.
  - apply (proj1 (proj2 (proj2 (proj2 (proj2
             (amount_is_kept_exactly None Samples.db0)))))
             (Samples.mk_receipt "r7" "t1" "t2" (2 ^ 53) 5000)).
    cbn. lia.
  - apply (proj1 (proj2 (proj2 (proj2
             (amount_is_kept_exactly None Samples.db0))))
             (js "r9") 4000 (identity_of Samples.alice)
             (Samples.create_body "alice" "bob" (NInt (2 ^ 63)))
             {| Receipts.data_signature := js "sig";
                Receipts.data_memo := js "";
                Receipts.data_fromTag := js "alice";
                Receipts.data_toTag := js "bob";
                Receipts.data_amountLamports := NInt (2 ^ 63) |}
             (2 ^ 63) Samples.alice Samples.bob
             eq_refl eq_refl (or_introl eq_refl) eq_refl eq_refl).
    lia.
Defined.

(** [Number(b)] rounds a BigInt that is not a binary64 value. *)
Remark Number_of_BigInt_rounds :
  Number_of_BigInt (2 ^ 53 + 1) = NInt (2 ^ 53).
Proof. reflexivity. Qed.

(** ** Regular expressions: [test] decides [matches] *)

Lemma matches_nil_nullable (r : Re) (s : jsstring) :
  matches r s -> s = [] -> nullable r = true.
Proof.
  induction 1 as [|p c Hp|a b s1 s2 _ IH1 _ IH2|a b s _ IH|a b s _ IH
                 | a | a s1 s2 _ _ _ _]; intros E; simpl; auto.
  - discriminate.
  - apply app_eq_nil in E. destruct E. now rewrite IH1, IH2.
  - now rewrite IH.
  - rewrite IH by assumption. apply orb_true_r.
Qed.

Lemma nullable_matches (r : Re) : nullable r = true <-> matches r [].
Proof.
  split; [|intros H; now apply (matches_nil_nullable r [])].
  induction r as [| |p|a IHa b IHb|a IHa b IHb|a IHa]; simpl;
    try discriminate; intros H.
  - constructor.
  - apply andb_true_iff in H. destruct H.
    apply (MCat a b [] []); auto.
  - apply orb_true_iff in H. destruct H; [apply MAltL | apply MAltR]; auto.
  - constructor.
Qed.

Lemma star_cons (a : Re) (c : N) (s : jsstring) :
  matches (Star a) (c :: s) ->
  exists s1 s2, s = s1 ++ s2 /\ matches a (c :: s1) /\ matches (Star a) s2.
Proof.
  intros H. remember (Star a) as r eqn:Er. remember (c :: s) as cs eqn:Ecs.
  revert s Ecs.
  induction H as [| | | | | |a' s1 s2 H1 _ H2 IH2]; try discriminate.
  injection Er as ->. intros s Ecs.
  destruct s1 as [|x s1].
  - apply IH2; auto.
  - injection Ecs as -> <-. exists s1, s2. auto.
Qed.

Lemma deriv_matches (c : N) (r : Re) (s : jsstring) :
  matches (deriv c r) s <-> matches r (c :: s).
Proof.
  revert s.
  induction r as [| |p|a IHa b IHb|a IHa b IHb|a IHa]; intros s; simpl.
  - split; inversion 1.
  - split; inversion 1.
  - destruct (p c) eqn:Hp; split; inversion 1; subst.
    + now constructor.
    + constructor.
    + congruence.
  - assert (L : matches (Cat (deriv c a) b) s -> matches (Cat a b) (c :: s)).
    { inversion 1; subst. apply (MCat a b (c :: s1) s2); auto.
      now apply IHa. }
    assert (R : matches (Cat a b) (c :: s) ->
                matches (Cat (deriv c a) b) s
                \/ (nullable a = true /\ matches (deriv c b) s)).
    { inversion 1 as [| |a' b' s1 s2 H1 H2 [E1 E2] E3| | | |]; subst.
      destruct s1 as [|x s1]; simpl in E3.
      - subst s2. right. split; [now apply nullable_matches | now apply IHb].
      - injection E3 as -> <-. left. constructor; auto. now apply IHa. }
    destruct (nullable a) eqn:Hn.
    + split.
      * inversion 1; subst; auto.
        apply (MCat a b [] (c :: s)); [now apply nullable_matches|].
        now apply IHb.
      * intros H. destruct (R H) as [H'|[_ H']];
          [now apply MAltL | now apply MAltR].
    + split; auto. intros H. destruct (R H) as [H'|[H' _]];
        [exact H' | discriminate].
  - split; inversion 1; subst.
    + apply MAltL. now apply IHa.
    + apply MAltR. now apply IHb.
    + apply MAltL. now apply IHa.
    + apply MAltR. now apply IHb.
  - split.
    + inversion 1; subst. apply (MStarS a (c :: s1) s2); auto. now apply IHa.
    + intros H. destruct (star_cons _ _ _ H) as (s1 & s2 & -> & H1 & H2).
      constructor; auto. now apply IHa.
Qed.

Lemma test_matches (r : Re) (s : jsstring) : test r s = true <-> matches r s.
Proof.
  revert r. induction s as [|c s IH]; intros r; simpl.
  - apply nullable_matches.
  - rewrite IH. apply deriv_matches.
Qed.

Lemma matches_Lit (s t : jsstring) : matches (Lit s) t <-> t = s.
Proof.
  revert t. induction s as [|c s IH]; intros t; simpl.
  - split; [inversion 1; reflexivity | intros ->; constructor].
  - split.
    + inversion 1 as [| |a b s1 s2 H1 H2| | | |]; subst.
      inversion H1; subst. apply IH in H2. subst.
      match goal with E : (_ =? _)%N = true |- _ => apply N.eqb_eq in E end.
      now subst.
    + intros ->. apply (MCat _ _ [c] s).
      * constructor. apply N.eqb_refl.
      * now apply IH.
Qed.

Lemma matches_Chr (c : N) (s : jsstring) : matches (Chr c) s <-> s = [c].
Proof.
  unfold Chr. split.
  - inversion 1 as [|p x Hx| | | | |]; subst. apply N.eqb_eq in Hx. now subst.
  - intros ->. constructor. apply N.eqb_refl.
Qed.

Lemma matches_Star_Class (p : N -> bool) (s : jsstring) :
  matches (Star (Class p)) s <-> forallb p s = true.
Proof.
  split.
  - intros H. remember (Star (Class p)) as r eqn:Er.
    induction H as [| | | | | |a s1 s2 H1 _ _ IH2]; try discriminate; auto.
    injection Er as ->. inversion H1; subst. simpl.
    apply andb_true_iff. auto.
  - induction s as [|c s IH]; simpl; intros H; [constructor|].
    apply andb_true_iff in H. destruct H as [Hc Hs].
    apply (MStarS _ [c] s); [now constructor | auto].
Qed.

Lemma matches_Plus_Class (p : N -> bool) (s : jsstring) :
  matches (Plus (Class p)) s <-> s <> [] /\ forallb p s = true.
Proof.
  unfold Plus. split.
  - inversion 1 as [| |a b s1 s2 H1 H2| | | |]; subst.
    inversion H1; subst. apply matches_Star_Class in H2. simpl.
    split; [discriminate|]. apply andb_true_iff. auto.
  - intros [Hne H]. destruct s as [|c s]; [congruence|].
    simpl in H. apply andb_true_iff in H. destruct H.
    apply (MCat _ _ [c] s); [now constructor|].
    now apply matches_Star_Class.
Qed.

(** The keys [ALLOWED_PREFIX] accepts: [tokens/<mint>/logo.png] and
    [tokens/<mint>/metadata.json], with [<mint>] a non-empty string
    without a slash. *)
Lemma ALLOWED_PREFIX_spec (key : jsstring) :
  test Objects.ALLOWED_PREFIX key = true
  <-> exists mint file,
        key = js "tokens/" ++ mint ++ js "/" ++ file
        /\ mint <> [] /\ forallb (fun c => negb (47 =? c)%N) mint = true
        /\ (file = js "logo.png" \/ file = js "metadata.json").
Proof.
  rewrite test_matches. unfold Objects.ALLOWED_PREFIX. split.
  - inversion 1 as [| |a1 b1 s1 r1 H1 H2| | | |]; subst.
    apply (proj1 (matches_Lit (js "tokens/") s1)) in H1. subst s1.
    inversion H2 as [| |a2 b2 mint r2 H3 H4| | | |]; subst.
    apply matches_Plus_Class in H3. destruct H3 as [Hne Hall].
    inversion H4 as [| |a3 b3 sl file H5 H6| | | |]; subst.
    apply (proj1 (matches_Chr 47 sl)) in H5. subst sl.
    exists mint, file. repeat split; auto.
    inversion H6; subst;
      [left; now apply (proj1 (matches_Lit (js "logo.png") file))
      |right; now apply (proj1 (matches_Lit (js "metadata.json") file))].
  - intros (mint & file & -> & Hne & Hall & Hfile).
    constructor; [now apply matches_Lit|].
    constructor; [now apply matches_Plus_Class|].
    apply (MCat _ _ [47%N] file); [now apply matches_Chr|].
    destruct Hfile as [-> | ->]; [apply MAltL | apply MAltR];
      now apply matches_Lit.
Qed.

(** ** Object upload *)

Lemma uri_decode_plain (s : jsstring) :
  forallb (fun c => negb (c =? 37)%N) s = true ->
  decodeURIComponent s = Returns s.
Proof.
  unfold decodeURIComponent.
  induction s as [|c s IH]; simpl; [reflexivity|].
  intros H. apply andb_true_iff in H. destruct H as [Hc Hs].
  apply negb_true_iff in Hc. rewrite Hc. simpl.
  rewrite IH by assumption. reflexivity.
Qed.

(** What the handler does with a key it accepts. *)
Lemma put_handler_accepted_key (cdn s3_public : option jsstring)
    (bucket : Objects.Bucket) (request : Objects.PutRequest)
    (body : Objects.Body) (decoded : jsstring) :
  decodeURIComponent (Objects.rawKey_of request) = Returns decoded ->
  test Objects.ALLOWED_PREFIX (Objects.strip_leading_slashes decoded) = true ->
  Objects.put_handler cdn s3_public bucket request body
  = match body with
    | Objects.Buffer octets =>
        if Objects.MAX_BODY_SIZE <? Z.of_nat (length octets)
        then Returns (message 413 "Payload too large (max 2MB)", bucket)
        else if Z.of_nat (length octets) =? 0
        then Returns (message 400 "Empty body not allowed", bucket)
        else
          match Objects.uploadObject bucket
                  (Objects.strip_leading_slashes decoded) octets
                  (Objects.contentType_of request) with
          | Throws _ => Returns (message 502 "Upload failed", bucket)
          | Returns bucket' =>
              Returns ({| status := 200;
                          payload :=
                            JObj [ (js "ok", JBool true);
                                   (js "publicUrl",
                                    JStr (Objects.getPublicUrl cdn s3_public
                                            (Objects.strip_leading_slashes
                                               decoded))) ] |},
                       bucket')
          end
    | _ => Returns (message 400 "Missing or invalid body (expected binary)",
                    bucket)
    end.
Proof.
  intros Hd Hk. unfold Objects.put_handler. rewrite Hd. cbn [bind].
  rewrite Hk. reflexivity.
Qed.

(** The body the server hands over, by the content type of the request. *)
Lemma request_body_typed (request : Objects.PutRequest) (header : jsstring) :
  Objects.content_type request = Some header ->
  Objects.request_body request
  = match Objects.parser_for header with
    | Some Objects.ParseAsBuffer =>
        Some (Objects.Buffer (Objects.octets_sent request))
    | Some Objects.ParseAsString =>
        Some (Objects.NotBuffer (Objects.octets_sent request))
    | None => None
    end.
Proof. intros H. unfold Objects.request_body. now rewrite H. Qed.

(** A body that the server hands over is the payload, or nothing when
    there is no payload. *)
Lemma request_body_octets (request : Objects.PutRequest) (body : Objects.Body) :
  Objects.request_body request = Some body ->
  match body with
  | Objects.NoBody =>
      Objects.content_type request = None /\ Objects.octets_sent request = []
  | Objects.Buffer octets =>
      octets = Objects.octets_sent request
      /\ exists header, Objects.content_type request = Some header
                        /\ Objects.parser_for header = Some Objects.ParseAsBuffer
  | Objects.NotBuffer octets =>
      octets = Objects.octets_sent request
      /\ exists header, Objects.content_type request = Some header
                        /\ Objects.parser_for header = Some Objects.ParseAsString
  end.
Proof.
  unfold Objects.request_body.
  destruct (Objects.content_type request) as [header|].
  - destruct (Objects.parser_for header) as [[|]|] eqn:Hp; intros [= <-];
      (split; [reflexivity | exists header; auto]).
  - destruct (Objects.octets_sent request); [|discriminate].
    destruct (Objects.chunked request); [discriminate|].
    intros [= <-]. auto.
Qed.

(** C9, as the code has it. PUT /objects/{key} stores an object (and
    answers 200) only when the decoded key is [tokens/<mint>/logo.png] or
    [tokens/<mint>/metadata.json] and the payload, sent under a content
    type that the server parses as a buffer, has 1 to 2097152 octets;
    what it stores is then that payload under that key.  The key
    [tokens/ABC/../../etc] is refused, nothing being stored.  A payload
    of 2097153 octets is refused, nothing being stored: with 413 under a
    content type that has a parser, with 415 otherwise.  An accepted key
    with a payload of one octet under a content type parsed as a buffer
    is answered 200 and stored, the bucket answering. *)
Theorem upload_is_restricted (cdn s3_public : option jsstring)
    (bucket : Objects.Bucket) (request : Objects.PutRequest) :
  let out := Objects.put_route cdn s3_public bucket request in
  (status (fst out) = 200 \/ snd out <> bucket ->
     exists decoded mint file header,
       decodeURIComponent (Objects.rawKey_of request) = Returns decoded
       /\ Objects.strip_leading_slashes decoded
          = js "tokens/" ++ mint ++ js "/" ++ file
       /\ mint <> [] /\ forallb (fun c => negb (47 =? c)%N) mint = true
       /\ (file = js "logo.png" \/ file = js "metadata.json")
       /\ Objects.content_type request = Some header
       /\ Objects.parser_for header = Some Objects.ParseAsBuffer
       /\ 1 <= Z.of_nat (length (Objects.octets_sent request)) <= 2 * 1024 * 1024
       /\ status (fst out) = 200
       /\ Objects.objects (snd out)
          = {| Objects.object_key := Objects.strip_leading_slashes decoded;
               Objects.object_body := Objects.octets_sent request;
               Objects.object_type := header |}
            :: Objects.objects bucket)
  /\ (Objects.param_star request = Some (js "tokens/ABC/../../etc") ->
      (status (fst out) = 400 \/ status (fst out) = 413
       \/ status (fst out) = 415)
      /\ snd out = bucket)
  /\ (Z.of_nat (length (Objects.octets_sent request)) = 2 * 1024 * 1024 + 1 ->
      snd out = bucket
      /\ (forall header,
            Objects.content_type request = Some header ->
            Objects.parser_for header <> None -> status (fst out) = 413)
      /\ (forall header,
            Objects.content_type request = Some header ->
            Objects.parser_for header = None -> status (fst out) = 415)
      /\ (Objects.content_type request = None -> status (fst out) = 415))
  /\ (forall decoded octet header,
      decodeURIComponent (Objects.rawKey_of request) = Returns decoded ->
      test Objects.ALLOWED_PREFIX (Objects.strip_leading_slashes decoded)
      = true ->
      Objects.octets_sent request = [octet] ->
      Objects.content_type request = Some header ->
      Objects.parser_for header = Some Objects.ParseAsBuffer ->
      Objects.reachable bucket = true ->
      status (fst out) = 200
      /\ Objects.objects (snd out)
         = {| Objects.object_key := Objects.strip_leading_slashes decoded;
              Objects.object_body := [octet];
              Objects.object_type := header |}
           :: Objects.objects bucket).
Proof.
  intros out. subst out. split; [|split; [|split]].
  - unfold Objects.put_route.
    destruct (Objects.request_body request) as [body|] eqn:Hbody;
      [|cbn; intros [H|H]; congruence].
    destruct (Objects.MAX_BODY_SIZE
              <? Z.of_nat (length (Objects.octets_sent request)));
      [cbn; intros [H|H]; congruence|].
    destruct (Objects.put_handler cdn s3_public bucket request body)
      as [o|] eqn:Ho; [|cbn; intros [H|H]; congruence].
    intros Hok. unfold Objects.put_handler in Ho.
    destruct (decodeURIComponent (Objects.rawKey_of request))
      as [decoded|] eqn:Hd; [|discriminate].
    cbn [bind] in Ho.
    destruct (test Objects.ALLOWED_PREFIX
                (Objects.strip_leading_slashes decoded)) eqn:Hk;
      cbn [negb] in Ho;
      [|injection Ho as <-; cbn in Hok; destruct Hok; congruence].
    apply ALLOWED_PREFIX_spec in Hk.
    destruct Hk as (mint & file & Hkey & Hne & Hall & Hfile).
    pose proof (request_body_octets _ _ Hbody) as Hsent.
    destruct body as [|octets|octets];
      try (injection Ho as <-; cbn in Hok; destruct Hok; congruence).
    destruct Hsent as (-> & header & Hct & Hparser).
    destruct (Objects.MAX_BODY_SIZE
              <? Z.of_nat (length (Objects.octets_sent request))) eqn:Hmax;
      [injection Ho as <-; cbn in Hok; destruct Hok; congruence|].
    destruct (Z.of_nat (length (Objects.octets_sent request)) =? 0) eqn:Hzero;
      [injection Ho as <-; cbn in Hok; destruct Hok; congruence|].
    unfold Objects.uploadObject in Ho.
    destruct (Objects.reachable bucket);
      [|injection Ho as <-; cbn in Hok; destruct Hok; congruence].
    injection Ho as <-. cbn [fst snd status Objects.objects].
    apply Z.ltb_ge in Hmax. apply Z.eqb_neq in Hzero.
    unfold Objects.MAX_BODY_SIZE in Hmax.
    unfold Objects.contentType_of. rewrite Hct.
    exists decoded, mint, file, header.
    repeat split; auto; lia.
  - intros Hp. unfold Objects.put_route.
    destruct (Objects.request_body request) as [body|];
      [|split; [right; right; reflexivity | reflexivity]].
    destruct (Objects.MAX_BODY_SIZE
              <? Z.of_nat (length (Objects.octets_sent request)));
      [split; [right; left; reflexivity | reflexivity]|].
    assert (Hh : Objects.put_handler cdn s3_public bucket request body
                 = Returns
                     (message 400
                        "Invalid key. Allowed: tokens/<mint>/logo.png or tokens/<mint>/metadata.json",
                      bucket)).
    { unfold Objects.put_handler, Objects.rawKey_of. rewrite Hp. reflexivity. }
    rewrite Hh. split; [left; reflexivity | reflexivity].
  - intros Hlen.
    assert (E : (Objects.MAX_BODY_SIZE
                 <? Z.of_nat (length (Objects.octets_sent request))) = true)
      by (apply Z.ltb_lt; unfold Objects.MAX_BODY_SIZE; lia).
    assert (Hsent : Objects.octets_sent request <> []).
    { intros H0. rewrite H0 in Hlen. cbn in Hlen. lia. }
    unfold Objects.put_route. split; [|split; [|split]].
    + destruct (Objects.request_body request); [|reflexivity].
      rewrite E. reflexivity.
    + intros header Hct Hparser. rewrite (request_body_typed _ _ Hct).
      destruct (Objects.parser_for header) as [[|]|]; [| |congruence];
        rewrite E; reflexivity.
    + intros header Hct Hparser.
      rewrite (request_body_typed _ _ Hct), Hparser. reflexivity.
    + intros Hct. unfold Objects.request_body. rewrite Hct.
      destruct (Objects.octets_sent request); [congruence | reflexivity].
  - intros decoded octet header Hd Hk Hb Hct Hparser Hreach.
    unfold Objects.put_route.
    rewrite (request_body_typed _ _ Hct), Hparser, Hb.
    rewrite (put_handler_accepted_key cdn s3_public bucket request _ decoded
               Hd Hk).
    unfold Objects.uploadObject, Objects.contentType_of.
    rewrite Hreach, Hct.
    change (Objects.MAX_BODY_SIZE <? Z.of_nat (length [octet])) with false.
    change (Z.of_nat (length [octet]) =? 0) with false.
    cbv iota. split; reflexivity.
Qed.

Lemma upload_is_restricted_witness :
  (status (fst (Objects.put_route None None Samples.empty_bucket
                  (Samples.put_request "tokens/ABC/logo.png" [137%N]))) = 200
   /\ Objects.objects
        (snd (Objects.put_route None None Samples.empty_bucket
                (Samples.put_request "tokens/ABC/logo.png" [137%N])))
      = [ {| Objects.object_key := js "tokens/ABC/logo.png";
             Objects.object_body := [137%N];
             Objects.object_type := js "image/png" |} ])
  /\ (forall octets,
        length octets = Z.to_nat (2 * 1024 * 1024 + 1) ->
        status (fst (Objects.put_route None None Samples.empty_bucket
                       (Samples.put_request "tokens/ABC/logo.png" octets)))
        = 413)
  /\ status (fst (Objects.put_route None None Samples.empty_bucket
                    (Samples.put_request "tokens/ABC/../../etc" [137%N])))
     <> 200.
Proof.
  split; [|split].
  - apply (proj2 (proj2 (proj2
             (upload_is_restricted None None Samples.empty_bucket
                (Samples.put_request "tokens/ABC/logo.png" [137%N]))))
           (js "tokens/ABC/logo.png") 137%N (js "image/png")); reflexivity.
  - intros octets Hlen.
    destruct (proj1 (proj2 (proj2
                (upload_is_restricted None None Samples.empty_bucket
                   (Samples.put_request "tokens/ABC/logo.png" octets)))))
      as (_ & H413 & _).
    + cbn [Samples.put_request Objects.octets_sent].
      rewrite Hlen. rewrite Z2Nat.id; lia.
    + apply (H413 (js "image/png")); [reflexivity | discriminate].
  - destruct (proj1 (proj2
                (upload_is_restricted None None Samples.empty_bucket
                   (Samples.put_request "tokens/ABC/../../etc" [137%N])))
                eq_refl) as [[H|[H|H]] _]; rewrite H; discriminate.
Defined.

(** C9, as stated, fails: the content type decides before the key and
    the size do.  An accepted key with a body of one octet is answered
    415 and not stored when the request names no content type, and 400
    when the body is sent as [text/plain]; a body of 2097153 octets sent
    under a content type that has no parser is answered 415, not 413. *)
Lemma upload_depends_on_the_content_type :
  let one_octet := fun ct =>
    {| Objects.param_star := Some (js "tokens/ABC/logo.png");
       Objects.content_type := ct;
       Objects.chunked := false;
       Objects.octets_sent := [137%N] |} in
  let too_long :=
    {| Objects.param_star := Some (js "tokens/ABC/logo.png");
       Objects.content_type := Some (js "text/html");
       Objects.chunked := false;
       Objects.octets_sent := repeat 0%N (Z.to_nat (2 * 1024 * 1024 + 1)) |} in
  Objects.put_route None None Samples.empty_bucket (one_octet None)
  = (message 415 "Unsupported Media Type", Samples.empty_bucket)
  /\ Objects.put_route None None Samples.empty_bucket
       (one_octet (Some (js "text/plain")))
     = (message 400 "Missing or invalid body (expected binary)",
        Samples.empty_bucket)
  /\ length (Objects.octets_sent too_long) = Z.to_nat (2 * 1024 * 1024 + 1)
  /\ Objects.put_route None None Samples.empty_bucket too_long
     = (message 415 "Unsupported Media Type", Samples.empty_bucket).
Proof.
  cbv zeta. split; [reflexivity|]. split; [reflexivity|]. split.
  - cbn [Objects.octets_sent]. apply repeat_length.
  - unfold Objects.put_route, Objects.request_body.
    cbn [Objects.content_type]. reflexivity.
Qed.




(** ** The ordered query: order and cursor *)

Local Abbreviation desc := (fun a b : Receipt => createdAt b <= createdAt a).

Lemma insert_desc_sorted (r : Receipt) (l : list Receipt) :
  StronglySorted desc l -> StronglySorted desc (insert_desc r l).
Proof.
  induction 1 as [|y l Hs IH Hy]; simpl.
  - repeat constructor.
  - destruct (createdAt y <=? createdAt r) eqn:E.
    + apply Z.leb_le in E. constructor; [now constructor|].
      constructor; [exact E|].
      eapply Forall_impl; [|exact Hy]. cbn. intros; lia.
    + apply Z.leb_gt in E. constructor; [exact IH|].
      apply (Permutation_Forall (Permutation_sym (insert_desc_perm r l))).
      constructor; [lia | exact Hy].
Qed.

Lemma orderBy_sorted (l : list Receipt) :
  StronglySorted desc (orderBy_createdAt_desc l).
Proof.
  induction l as [|r l IH]; simpl; [constructor|].
  now apply insert_desc_sorted.
Qed.

(** A run of consecutive elements of a sorted list is sorted. *)
Lemma sorted_run {A : Type} (R : A -> A -> Prop) (before run after : list A) :
  StronglySorted R (before ++ run ++ after) -> StronglySorted R run.
Proof.
  induction before as [|x before IH]; cbn [app].
  - induction run as [|y run IH]; cbn [app]; intros H; [constructor|].
    inversion H as [|? ? Hs Hy]; subst. constructor; [now apply IH|].
    apply Forall_app in Hy. tauto.
  - intros H. inversion H; subst. now apply IH.
Qed.

Lemma sorted_items (env : option jsstring) (db : Db) (rows : list Receipt) :
  StronglySorted desc rows ->
  StronglySorted
    (fun a b => Receipts.item_createdAt b <= Receipts.item_createdAt a)
    (map (fun r => Receipts.toReceiptItem env (Receipts.include_tags db r)) rows).
Proof.
  induction 1 as [|r rows Hs IH Hr]; cbn [map]; constructor; [exact IH|].
  apply Forall_map. eapply Forall_impl; [|exact Hr]. cbn. auto.
Qed.

(** With distinct ids, the rows from the cursor on are the cursor's row
    and the rows that follow it. *)
Lemma from_cursor_at (pre : list Receipt) (c : Receipt) (post : list Receipt) :
  NoDup (map id (pre ++ c :: post)) ->
  from_cursor (id c) (pre ++ c :: post) = c :: post.
Proof.
  induction pre as [|x pre IH]; cbn [app map from_cursor]; intros Hnd.
  - now rewrite str_eqb_refl.
  - inversion Hnd as [|? ? Hnotin Hnd']; subst.
    destruct (str_eqb_spec (id x) (id c)) as [E|_].
    + exfalso. apply Hnotin. rewrite E, map_app.
      apply in_or_app. right. now left.
    + now apply IH.
Qed.

Lemma from_cursor_absent (c : jsstring) (rows : list Receipt) :
  (forall r, In r rows -> id r <> c) -> from_cursor c rows = [].
Proof.
  induction rows as [|r rows IH]; cbn [from_cursor]; intros H; [reflexivity|].
  destruct (str_eqb_spec (id r) c) as [E|_].
  - exfalso. apply (H r); [now left | exact E].
  - apply IH. intros x Hx. apply H. now right.
Qed.

(** ** Receipts: the list and its pages *)

Lemma limit_of_bounds (ql : option jsstring) :
  1 <= Receipts.limit_of ql <= 100.
Proof.
  unfold Receipts.limit_of, Receipts.MAX_LIMIT.
  match goal with |- context [Z.max 1 ?x] => generalize x end.
  intros x. lia.
Qed.

Lemma last_id_snoc (l : list Receipts.ReceiptItem) (x : Receipts.ReceiptItem) :
  Receipts.last_id (l ++ [x]) = Some (Receipts.item_id x).
Proof.
  unfold Receipts.last_id. rewrite map_app. cbn [map].
  now rewrite last_last.
Qed.

Lemma distinct_ids_filter (keep : Receipt -> bool) (rows : list Receipt) :
  NoDup (map id rows) -> NoDup (map id (filter keep rows)).
Proof.
  induction rows as [|x rows IH]; cbn [filter map]; [trivial|].
  intros H. apply NoDup_cons_iff in H. destruct H as [Hnotin Hnd].
  destruct (keep x); [|now apply IH].
  cbn [map]. apply NoDup_cons; [|now apply IH].
  intros Hin. apply Hnotin. apply in_map_iff in Hin.
  destruct Hin as (y & Hy & Hin). apply filter_In in Hin.
  apply in_map_iff. exists y. tauto.
Qed.

Section Pages.

Variable env : option jsstring.
Variable db : Db.
Variable C : Identity.
Variable ql : option jsstring.

Local Abbreviation limit := (Receipts.limit_of ql).
Local Abbreviation item :=
  (fun r => Receipts.toReceiptItem env (Receipts.include_tags db r)).
Local Abbreviation L := (receipt_findMany_all db (ident_id C)).

(** The rows the query reads for a cursor, before [skip] and [take]. *)
Local Abbreviation rows_at cursor :=
  (match cursor with
   | None => L
   | Some c => from_cursor c L
   end).

(** The page, from the rows the query finds from the cursor on. *)
Lemma list_page_of_rows (qc : option jsstring) (rest : list Receipt) :
  skipn (Z.to_nat match Receipts.cursor_of qc with Some _ => 1 | None => 0 end)
        (rows_at (Receipts.cursor_of qc)) = rest ->
  Receipts.list_page env db C ql qc
  = (map item (firstn (Z.to_nat limit) rest),
     if limit <? Z.of_nat (length rest)
     then Receipts.last_id (map item (firstn (Z.to_nat limit) rest))
     else None).
Proof.
  intros Hrest. pose proof (limit_of_bounds ql) as Hl.
  unfold Receipts.list_page, receipt_findMany. cbv zeta. rewrite Hrest.
  replace (Z.to_nat (limit + 1)) with (S (Z.to_nat limit)) by lia.
  rewrite firstn_firstn, Nat.min_l by lia.
  f_equal. rewrite length_map, !length_firstn.
  destruct (limit <? Z.of_nat (length rest)) eqn:E.
  - apply Z.ltb_lt in E.
    assert (E1 : (limit <? Z.of_nat (Nat.min (S (Z.to_nat limit)) (length rest)))
                 = true) by (apply Z.ltb_lt; lia).
    assert (E2 : (0 <? Z.of_nat (Nat.min (Z.to_nat limit) (length rest)))
                 = true) by (apply Z.ltb_lt; lia).
    now rewrite E1, E2.
  - apply Z.ltb_ge in E.
    assert (E1 : (limit <? Z.of_nat (Nat.min (S (Z.to_nat limit)) (length rest)))
                 = false) by (apply Z.ltb_ge; lia).
    now rewrite E1.
Qed.

Lemma first_page :
  Receipts.list_page env db C ql None
  = (map item (firstn (Z.to_nat limit) L),
     if limit <? Z.of_nat (length L)
     then Receipts.last_id (map item (firstn (Z.to_nat limit) L))
     else None).
Proof. apply list_page_of_rows. reflexivity. Qed.

Lemma In_L (r : Receipt) :
  In r L <-> In r (receipts db) /\ party_of (ident_id C) r = true.
Proof.
  unfold receipt_findMany_all. rewrite <- filter_In. split; intros H.
  - exact (Permutation_in _ (orderBy_perm _) H).
  - exact (Permutation_in _ (Permutation_sym (orderBy_perm _)) H).
Qed.

(** Whatever the cursor, a page is a run of consecutive rows of [L]. *)
Lemma page_is_a_run (qc : option jsstring) :
  exists before rows after,
    L = before ++ rows ++ after
    /\ fst (Receipts.list_page env db C ql qc) = map item rows.
Proof.
  set (k := Z.to_nat match Receipts.cursor_of qc with
                     | Some _ => 1 | None => 0 end).
  assert (Hsuffix : exists pre, L = pre ++ rows_at (Receipts.cursor_of qc)).
  { destruct (Receipts.cursor_of qc) as [c|].
    - apply from_cursor_suffix.
    - exists []. reflexivity. }
  destruct Hsuffix as [pre Hpre].
  rewrite (list_page_of_rows qc _ eq_refl). cbn [fst]. fold k.
  set (F := rows_at (Receipts.cursor_of qc)) in *.
  exists (pre ++ firstn k F), (firstn (Z.to_nat limit) (skipn k F)),
         (skipn (Z.to_nat limit) (skipn k F)).
  split; [|reflexivity].
  rewrite firstn_skipn, <- app_assoc, firstn_skipn. exact Hpre.
Qed.

(** A cursor that is the id of none of the caller's rows gives an empty
    page. *)
Lemma page_of_unknown_cursor (qc : option jsstring) (c : jsstring) :
  Receipts.cursor_of qc = Some c ->
  (forall r, In r L -> id r <> c) ->
  Receipts.list_page env db C ql qc = ([], None).
Proof.
  intros Hc Habsent. pose proof (limit_of_bounds ql) as Hl.
  rewrite (list_page_of_rows qc [])
    by (rewrite Hc, (from_cursor_absent c L Habsent); apply skipn_nil).
  rewrite firstn_nil. cbn [map length Z.of_nat].
  assert (E : (limit <? 0) = false) by (apply Z.ltb_ge; lia).
  now rewrite E.
Qed.

Hypothesis unique_ids : NoDup (map id (receipts db)).
Hypothesis clean_ids : Forall (fun r => Receipts.clean_id (id r)) (receipts db).

Lemma ids_of_L_distinct : NoDup (map id L).
Proof.
  unfold receipt_findMany_all.
  apply (Permutation_NoDup
           (Permutation_map id (Permutation_sym (orderBy_perm _)))).
  now apply distinct_ids_filter.
Qed.

Lemma page_after (pre : list Receipt) (c : Receipt) (rest : list Receipt) :
  L = pre ++ c :: rest ->
  Receipts.list_page env db C ql (Some (id c))
  = (map item (firstn (Z.to_nat limit) rest),
     if limit <? Z.of_nat (length rest)
     then Receipts.last_id (map item (firstn (Z.to_nat limit) rest))
     else None).
Proof.
  intros HL. apply list_page_of_rows.
  assert (Hc : In c (receipts db)).
  { apply In_L. rewrite HL. apply in_or_app. right. now left. }
  assert (Hclean : Receipts.clean_id (id c))
    by exact (proj1 (Forall_forall _ _) clean_ids c Hc).
  destruct Hclean as [Hne Htrim].
  assert (Hcur : Receipts.cursor_of (Some (id c)) = Some (id c)).
  { unfold Receipts.cursor_of. rewrite Htrim.
    destruct (id c); [congruence | reflexivity]. }
  rewrite Hcur. pose proof ids_of_L_distinct as Hnd.
  rewrite HL in Hnd |- *. rewrite (from_cursor_at pre c rest Hnd).
  reflexivity.
Qed.

Lemma pages_after (fuel : nat) :
  forall pre c rest,
    L = pre ++ c :: rest ->
    (length rest < fuel)%nat ->
    exists pages,
      Receipts.all_pages fuel env db C ql (Some (id c)) = Some pages
      /\ concat pages = map item rest
      /\ Forall (fun p => Z.of_nat (length p) <= limit) pages.
Proof.
  pose proof (limit_of_bounds ql) as Hl.
  induction fuel as [|fuel IH]; intros pre c rest HL Hfuel; [lia|].
  cbn [Receipts.all_pages]. rewrite (page_after pre c rest HL).
  unfold Receipts.shown_cursor. cbn [fst snd].
  destruct (limit <? Z.of_nat (length rest)) eqn:E.
  - apply Z.ltb_lt in E.
    assert (Hfront : firstn (Z.to_nat limit) rest <> []).
    { intros H0. apply (f_equal (@length _)) in H0.
      rewrite length_firstn in H0. cbn in H0. lia. }
    destruct (exists_last Hfront) as (front & c' & Hsplit).
    assert (Hlast : Receipts.last_id (map item (firstn (Z.to_nat limit) rest))
                    = Some (id c')).
    { rewrite Hsplit, map_app. cbn [map]. now rewrite last_id_snoc. }
    rewrite Hlast.
    assert (HL' : L = (pre ++ c :: front) ++ c' :: skipn (Z.to_nat limit) rest).
    { rewrite HL, <- app_assoc. cbn [app]. do 2 f_equal.
      rewrite <- (firstn_skipn (Z.to_nat limit) rest) at 1.
      rewrite Hsplit, <- app_assoc. reflexivity. }
    assert (Hc' : In c' (receipts db)).
    { apply In_L. rewrite HL'. apply in_or_app. right. now left. }
    destruct (proj1 (Forall_forall _ _) clean_ids c' Hc') as [Hne _].
    assert (Ht : truthy (VString (id c')) = true)
      by (destruct (id c'); [congruence | reflexivity]).
    rewrite Ht.
    destruct (IH _ _ _ HL') as (pages & Hrun & Hcat & Hlen).
    { rewrite length_skipn. lia. }
    rewrite Hrun. cbn [option_map]. eexists. split; [reflexivity|].
    split.
    + cbn [concat]. rewrite Hcat, <- map_app.
      now rewrite firstn_skipn.
    + constructor; [|exact Hlen].
      rewrite length_map, length_firstn. lia.
  - apply Z.ltb_ge in E. eexists. split; [reflexivity|].
    rewrite firstn_all2 by lia. cbn [concat]. rewrite app_nil_r.
    split; [reflexivity|]. constructor; [|constructor].
    rewrite length_map. exact E.
Qed.

Lemma pages_from_start :
  exists pages,
    Receipts.all_pages (S (length L)) env db C ql None = Some pages
    /\ concat pages = map item L
    /\ Forall (fun p => Z.of_nat (length p) <= limit) pages.
Proof.
  pose proof (limit_of_bounds ql) as Hl.
  cbn [Receipts.all_pages]. rewrite first_page.
  unfold Receipts.shown_cursor. cbn [fst snd].
  destruct (limit <? Z.of_nat (length L)) eqn:E.
  - apply Z.ltb_lt in E.
    assert (Hfront : firstn (Z.to_nat limit) L <> []).
    { intros H0. apply (f_equal (@length _)) in H0.
      rewrite length_firstn in H0. cbn in H0. lia. }
    destruct (exists_last Hfront) as (front & c' & Hsplit).
    assert (Hlast : Receipts.last_id (map item (firstn (Z.to_nat limit) L))
                    = Some (id c')).
    { rewrite Hsplit, map_app. cbn [map]. now rewrite last_id_snoc. }
    rewrite Hlast.
    assert (HL' : L = front ++ c' :: skipn (Z.to_nat limit) L).
    { rewrite <- (firstn_skipn (Z.to_nat limit) L) at 1.
      rewrite Hsplit, <- app_assoc. reflexivity. }
    assert (Hc' : In c' (receipts db)).
    { apply In_L. rewrite HL'. apply in_or_app. right. now left. }
    destruct (proj1 (Forall_forall _ _) clean_ids c' Hc') as [Hne _].
    assert (Ht : truthy (VString (id c')) = true)
      by (destruct (id c'); [congruence | reflexivity]).
    rewrite Ht.
    destruct (pages_after (length L) _ _ _ HL') as (pages & Hrun & Hcat & Hlen).
    { rewrite length_skipn. lia. }
    rewrite Hrun. cbn [option_map]. eexists. split; [reflexivity|].
    split.
    + cbn [concat]. rewrite Hcat, <- map_app.
      now rewrite firstn_skipn.
    + constructor; [|exact Hlen].
      rewrite length_map, length_firstn. lia.
  - apply Z.ltb_ge in E. eexists. split; [reflexivity|].
    rewrite firstn_all2 by lia. cbn [concat]. rewrite app_nil_r.
    split; [reflexivity|]. constructor; [|constructor].
    rewrite length_map. exact E.
Qed.

End Pages.

(** C6, as the code has it. GET / lists the receipts of which the caller
    is [fromTag] or [toTag], all of them and no other, by [createdAt]
    descending, page by page: whatever the cursor, a page is a run of
    consecutive receipts of that ordered list, and so ordered itself;
    the first page is its head; and, the ids of the store being
    distinct, non-empty and without surrounding white space, the page
    asked with the id of a receipt as cursor is the run that follows that
    receipt, and the pages reached from the first one by [nextCursor]
    make up the whole list, in order.  The query orders by [createdAt]
    and by nothing else. *)
Theorem list_is_ordered_by_createdAt
    (env : option jsstring) (db : Db) (C : Identity) (ql : option jsstring) :
  let L := receipt_findMany_all db (ident_id C) in
  let item := fun r => Receipts.toReceiptItem env (Receipts.include_tags db r) in
  let n := Z.to_nat (Receipts.limit_of ql) in
  (forall r, In r L <->
             In r (receipts db)
             /\ (fromTagId r = ident_id C \/ toTagId r = ident_id C))
  /\ Permutation L (filter (party_of (ident_id C)) (receipts db))
  /\ StronglySorted (fun a b => createdAt b <= createdAt a) L
  /\ fst (Receipts.list_page env db C ql None) = map item (firstn n L)
  /\ (forall qc,
        exists before rows after,
          L = before ++ rows ++ after
          /\ fst (Receipts.list_page env db C ql qc) = map item rows)
  /\ (forall qc,
        StronglySorted
          (fun a b => Receipts.item_createdAt b <= Receipts.item_createdAt a)
          (fst (Receipts.list_page env db C ql qc)))
  /\ (NoDup (map id (receipts db)) ->
      Forall (fun r => Receipts.clean_id (id r)) (receipts db) ->
      (forall pre c post,
          L = pre ++ c :: post ->
          fst (Receipts.list_page env db C ql (Some (id c)))
          = map item (firstn n post))
      /\ exists pages,
           Receipts.all_pages (S (length L)) env db C ql None = Some pages
           /\ concat pages = map item L).
Proof.
  intros L item n. split; [|split; [|split; [|split; [|split; [|split]]]]].
  - intros r. unfold L. rewrite In_L. unfold party_of.
    rewrite orb_true_iff, !str_eqb_eq. tauto.
  - apply orderBy_perm.
  - apply orderBy_sorted.
  - rewrite first_page. reflexivity.
  - intros qc. apply page_is_a_run.
  - intros qc. destruct (page_is_a_run env db C ql qc)
      as (before & rows & after & HL & ->).
    apply sorted_items. apply (sorted_run _ before rows after).
    rewrite <- HL. apply orderBy_sorted.
  - intros Hids Hclean. split.
    + intros pre c post HL.
      rewrite (page_after env db C ql Hids Hclean pre c post HL). reflexivity.
    + destruct (pages_from_start env db C ql Hids Hclean)
        as (pages & Hrun & Hcat & _).
      exists pages. auto.
Qed.

(** C6, as stated, fails on the order of ties: three receipts created at
    the same instant are not listed in the order of their ids, and the
    same three rows held in another order by the store are listed in
    another order. *)
Lemma list_ties_follow_scan_order :
  map Receipts.item_id
      (fst (Receipts.list_page None Samples.db_ties
              (identity_of Samples.alice) None None))
  = [js "rb"; js "ra"; js "rc"]
  /\ map Receipts.item_id
         (fst (Receipts.list_page None Samples.db_ties'
                 (identity_of Samples.alice) None None))
     = [js "ra"; js "rb"; js "rc"]
  /\ Permutation (receipts Samples.db_ties) (receipts Samples.db_ties')
  /\ Receipts.list_route None Samples.db_ties
       (identity_of Samples.alice) None None
     <> Receipts.list_route None Samples.db_ties'
          (identity_of Samples.alice) None None.
Proof.
  split; [reflexivity|]. split; [reflexivity|]. split.
  - apply perm_swap.
  - vm_compute. discriminate.
Qed.

(** C5, as the code has it. The effective limit lies in [1,100]: it is
    20 when [limit] is absent, is not a number or is 0, and the given
    integer clamped to [1,100] otherwise.  A page has at most that many
    items; the first page is the head of the caller's receipts in
    [createdAt]-descending order, and [nextCursor] is the id of its last
    item when receipts remain after it (the page is then full) and is
    absent otherwise.  A cursor that is the id of none of the caller's
    receipts gives an empty page.  The ids of the store being distinct,
    non-empty and without surrounding white space, the page asked with
    the id of a receipt as cursor holds the receipts strictly after it,
    with the same rule for [nextCursor], and following [nextCursor] from
    the first page ends and yields every receipt of the caller once, in
    order. *)
Theorem list_pages
    (env : option jsstring) (db : Db) (C : Identity) (ql : option jsstring) :
  let limit := Receipts.limit_of ql in
  let L := receipt_findMany_all db (ident_id C) in
  let item := fun r => Receipts.toReceiptItem env (Receipts.include_tags db r) in
  let page_of := fun rest : list Receipt =>
    (map item (firstn (Z.to_nat limit) rest),
     if limit <? Z.of_nat (length rest)
     then Receipts.last_id (map item (firstn (Z.to_nat limit) rest))
     else None) in
  1 <= limit <= 100
  /\ (ql = None -> limit = 20)
  /\ (forall s, ql = Some s ->
        limit = match parseInt10 s with
                | Some n => if n =? 0 then 20 else Z.min 100 (Z.max 1 n)
                | None => 20
                end)
  /\ (forall rest, Z.of_nat (length (fst (page_of rest))) <= limit
                   /\ (limit < Z.of_nat (length rest) ->
                       Z.of_nat (length (fst (page_of rest))) = limit))
  /\ (forall qc,
        Z.of_nat (length (fst (Receipts.list_page env db C ql qc))) <= limit)
  /\ Receipts.list_page env db C ql None = page_of L
  /\ (forall qc c,
        Receipts.cursor_of qc = Some c ->
        (forall r, In r L -> id r <> c) ->
        Receipts.list_page env db C ql qc = ([], None))
  /\ (NoDup (map id (receipts db)) ->
      Forall (fun r => Receipts.clean_id (id r)) (receipts db) ->
      (forall pre c post,
          L = pre ++ c :: post ->
          Receipts.list_page env db C ql (Some (id c)) = page_of post)
      /\ exists pages,
           Receipts.all_pages (S (length L)) env db C ql None = Some pages
           /\ concat pages = map item L
           /\ Forall (fun p => Z.of_nat (length p) <= limit) pages
           /\ NoDup (map Receipts.item_id (concat pages))).
Proof.
  intros limit L item page_of.
  pose proof (limit_of_bounds ql) as Hl.
  split; [exact Hl|]. split; [intros ->; reflexivity|].
  split.
  { intros s ->. unfold limit, Receipts.limit_of,
      Receipts.DEFAULT_LIMIT, Receipts.MAX_LIMIT.
    destruct (parseInt10 s) as [n|]; [|reflexivity].
    destruct (n =? 0); reflexivity. }
  split.
  { intros rest. unfold page_of. cbn [fst].
    rewrite length_map, length_firstn. fold limit in Hl. lia. }
  split.
  { intros qc. unfold Receipts.list_page. cbn [fst].
    rewrite length_map, length_firstn. fold limit in Hl. lia. }
  split; [apply first_page|].
  split; [intros qc c; apply page_of_unknown_cursor|].
  intros Hids Hclean. split.
  - intros pre c post HL.
    exact (page_after env db C ql Hids Hclean pre c post HL).
  - destruct (pages_from_start env db C ql Hids Hclean)
      as (pages & Hrun & Hcat & Hlen).
    exists pages. repeat split; auto.
    rewrite Hcat, map_map. cbn.
    exact (ids_of_L_distinct db C Hids).
Qed.

Ltac distinct :=
  repeat (constructor; [cbn; intuition discriminate|]); constructor.

Ltac clean :=
  repeat (constructor; [split; [discriminate | reflexivity]|]); constructor.

Lemma list_is_ordered_by_createdAt_witness :
  exists pages,
    Receipts.all_pages 4 None Samples.db0 (identity_of Samples.bob)
                       (Some (js "2")) None = Some pages
    /\ concat pages
       = map (fun r => Receipts.toReceiptItem None
                         (Receipts.include_tags Samples.db0 r))
             [Samples.mk_receipt "r3" "t2" "t3" 9 3000;
              Samples.mk_receipt "r2" "t2" "t1" 7 2000;
              Samples.mk_receipt "r1" "t1" "t2" 5 1000].
Proof.
  apply (proj2 (proj2 (proj2 (proj2 (proj2 (proj2
           (list_is_ordered_by_createdAt None Samples.db0
              (identity_of Samples.bob) (Some (js "2"))))))))).
  - vm_compute. distinct.
  - vm_compute. clean.
Defined.

Lemma list_pages_witness :
  (exists pages,
     Receipts.all_pages 26 None Samples.db25 (identity_of Samples.alice)
                        (Some (js "10")) None = Some pages
     /\ concat pages
        = map (fun r => Receipts.toReceiptItem None
                          (Receipts.include_tags Samples.db25 r))
              (receipt_findMany_all Samples.db25 (js "t1"))
     /\ Forall (fun p => Z.of_nat (length p) <= 10) pages
     /\ NoDup (map Receipts.item_id (concat pages)))
  /\ Receipts.list_page None Samples.db_ties (identity_of Samples.alice)
       (Some (js "2")) (Some (js "ra"))
     = ([Receipts.toReceiptItem None
           (Receipts.include_tags Samples.db_ties
              (Samples.mk_receipt "rc" "t1" "t2" 3 1000))],
        None).
Proof.
  split.
  - apply (proj2 (proj2 (proj2 (proj2 (proj2 (proj2 (proj2
             (list_pages None Samples.db25 (identity_of Samples.alice)
                         (Some (js "10")))))))))).
    + vm_compute. distinct.
    + vm_compute. clean.
  - destruct (proj2 (proj2 (proj2 (proj2 (proj2 (proj2 (proj2
                (list_pages None Samples.db_ties (identity_of Samples.alice)
                            (Some (js "2"))))))))))
      as [Hafter _].
    + vm_compute. distinct.
    + vm_compute. clean.
    + apply (Hafter [Samples.mk_receipt "rb" "t1" "t2" 1 1000]
                    (Samples.mk_receipt "ra" "t1" "t2" 2 1000)
                    [Samples.mk_receipt "rc" "t1" "t2" 3 1000]).
      reflexivity.
Defined.

(** The example of the specification: 25 receipts, [limit=10]. *)
Example pages_of_25 :
  option_map (map (@length _))
    (Receipts.all_pages 26 None Samples.db25 (identity_of Samples.alice)
                        (Some (js "10")) None)
  = Some [10%nat; 10%nat; 5%nat].
Proof. reflexivity. Qed.

(** Receipts created at the same instant are paged like the others. *)
Example pages_of_ties :
  option_map (map (map Receipts.item_id))
    (Receipts.all_pages 3 None Samples.db_ties (identity_of Samples.alice)
                        (Some (js "2")) None)
  = Some [[js "rb"; js "ra"]; [js "rc"]].
Proof. reflexivity. Qed.

(** C5, as stated, fails on the limit: [limit=0] is not raised to 1, the
    lower end of [1,100], but replaced by 20, and the page has 20 items. *)
Lemma limit_zero_is_replaced_by_the_default :
  Receipts.limit_of (Some (js "0")) = 20
  /\ Receipts.limit_of (Some (js "0")) <> Z.max 1 (Z.min 100 0)
  /\ length (fst (Receipts.list_page None Samples.db25
                    (identity_of Samples.alice) (Some (js "0")) None))
     = 20%nat.
Proof.
  split; [reflexivity|]. split; [|reflexivity].
  vm_compute. discriminate.
Qed.

(* ================================================================== *)
(** * Part III: the rest of the routes                                  *)
(* ================================================================== *)

(** ** API keys *)

Lemma base64url_ind (P : list N -> Prop) :
  P [] -> (forall a, P [a]) -> (forall a b, P [a; b]) ->
  (forall a b c rest, P rest -> P (a :: b :: c :: rest)) ->
  forall l, P l.
Proof.
  intros H0 H1 H2 H3.
  assert (H : forall l, P l /\ (forall a, P (a :: l))
                        /\ (forall a b, P (a :: b :: l))).
  { induction l as [|x l (IH0 & IH1 & IH2)].
    - repeat split; auto.
    - repeat split; auto. }
  intros l. apply H.
Qed.

Lemma base64url_char_class (i : N) :
  ApiKeys.base64url_class (ApiKeys.base64url_char i) = true.
Proof.
  unfold ApiKeys.base64url_class, ApiKeys.base64url_char.
  destruct (i <? 26)%N eqn:E1; [|destruct (i <? 52)%N eqn:E2;
    [|destruct (i <? 62)%N eqn:E3; [|destruct (i =? 62)%N eqn:E4]]];
    try reflexivity.
  - apply N.ltb_lt in E1.
    assert (A : ((65 <=? 65 + i) && (65 + i <=? 90))%N = true)
      by (apply andb_true_iff; split; apply N.leb_le; lia).
    now rewrite A.
  - apply N.ltb_ge in E1. apply N.ltb_lt in E2.
    assert (A : ((97 <=? 97 + (i - 26)) && (97 + (i - 26) <=? 122))%N = true)
      by (apply andb_true_iff; split; apply N.leb_le; lia).
    rewrite A. now rewrite orb_true_r.
  - apply N.ltb_ge in E2. apply N.ltb_lt in E3.
    assert (A : ((48 <=? 48 + (i - 52)) && (48 + (i - 52) <=? 57))%N = true)
      by (apply andb_true_iff; split; apply N.leb_le; lia).
    rewrite A. now rewrite !orb_true_r.
Qed.

Lemma base64url_class_all (octets : list N) :
  forallb ApiKeys.base64url_class (ApiKeys.base64url octets) = true.
Proof.
  induction octets as [|a|a b|a b c rest IH] using base64url_ind;
    cbn [ApiKeys.base64url forallb app]; rewrite ?base64url_char_class;
    auto.
Qed.

Lemma base64url_length (octets : list N) :
  (3 * length (ApiKeys.base64url octets)
   = 4 * length octets + match (length octets mod 3)%nat with
                         | 0 => 0 | 1 => 2 | _ => 1 end)%nat.
Proof.
  induction octets as [|a|a b|a b c rest IH] using base64url_ind;
    try reflexivity.
  cbn [ApiKeys.base64url app length].
  replace (S (S (S (length rest))) mod 3)%nat with (length rest mod 3)%nat.
  - lia.
  - change (S (S (S (length rest)))) with (3 + length rest)%nat.
    rewrite Nat.Div0.add_mod, Nat.Div0.mod_same by lia. cbn [Nat.add].
    now rewrite Nat.Div0.mod_mod.
Qed.

Lemma base64url_not_blank (c : N) :
  ApiKeys.base64url_class c = true -> is_white_space c = false.
Proof.
  unfold ApiKeys.base64url_class, is_white_space. intros H.
  repeat (apply orb_true_iff in H; destruct H as [H|H]);
    try (apply andb_true_iff in H; destruct H as [H1 H2];
         apply N.leb_le in H1, H2);
    try apply N.eqb_eq in H;
    repeat (apply orb_false_iff; split);
    try (apply andb_false_iff; left); try apply N.eqb_neq; try apply N.leb_gt;
    lia.
Qed.

Lemma base64url_char_inj (i j : N) :
  (i < 64)%N -> (j < 64)%N ->
  ApiKeys.base64url_char i = ApiKeys.base64url_char j -> i = j.
Proof.
  unfold ApiKeys.base64url_char. intros Hi Hj.
  destruct (i <? 26)%N eqn:I1; destruct (i <? 52)%N eqn:I2;
  destruct (i <? 62)%N eqn:I3; destruct (i =? 62)%N eqn:I4;
  destruct (j <? 26)%N eqn:J1; destruct (j <? 52)%N eqn:J2;
  destruct (j <? 62)%N eqn:J3; destruct (j =? 62)%N eqn:J4;
  rewrite ?N.ltb_lt, ?N.ltb_ge, ?N.eqb_eq, ?N.eqb_neq in *; lia.
Qed.

Ltac euclid a n :=
  let H1 := fresh "Hdiv" in
  let H2 := fresh "Hmod" in
  pose proof (N.div_mod a n ltac:(discriminate)) as H1;
  pose proof (N.mod_lt a n ltac:(discriminate)) as H2.

Lemma sextets_inj_3 (a b c a' b' c' : N) :
  (a < 256 -> b < 256 -> c < 256 -> a' < 256 -> b' < 256 -> c' < 256 ->
   a / 4 = a' / 4 ->
   (a mod 4) * 16 + b / 16 = (a' mod 4) * 16 + b' / 16 ->
   (b mod 16) * 4 + c / 64 = (b' mod 16) * 4 + c' / 64 ->
   c mod 64 = c' mod 64 ->
   a = a' /\ b = b' /\ c = c')%N.
Proof.
  intros. euclid a 4%N. euclid a' 4%N. euclid b 16%N. euclid b' 16%N.
  euclid c 64%N. euclid c' 64%N.
  assert (b / 16 < 16)%N by (apply N.Div0.div_lt_upper_bound; lia).
  assert (b' / 16 < 16)%N by (apply N.Div0.div_lt_upper_bound; lia).
  assert (c / 64 < 4)%N by (apply N.Div0.div_lt_upper_bound; lia).
  assert (c' / 64 < 4)%N by (apply N.Div0.div_lt_upper_bound; lia).
  lia.
Qed.

Lemma sextet_bounds (a b : N) :
  (a < 256 -> b < 256 ->
   a / 4 < 64 /\ (a mod 4) * 16 + b / 16 < 64
   /\ (a mod 16) * 4 + b / 64 < 64 /\ a mod 64 < 64
   /\ (a mod 4) * 16 < 64 /\ (a mod 16) * 4 < 64)%N.
Proof.
  intros. euclid a 4%N. euclid a 16%N. euclid a 64%N.
  assert (a / 4 < 64)%N by (apply N.Div0.div_lt_upper_bound; lia).
  assert (b / 16 < 16)%N by (apply N.Div0.div_lt_upper_bound; lia).
  assert (b / 64 < 4)%N by (apply N.Div0.div_lt_upper_bound; lia).
  lia.
Qed.

Lemma base64url_inj (l1 : list N) :
  forall l2,
    Forall (fun b => (b < 256)%N) l1 -> Forall (fun b => (b < 256)%N) l2 ->
    length l1 = length l2 ->
    ApiKeys.base64url l1 = ApiKeys.base64url l2 -> l1 = l2.
Proof.
  induction l1 as [|a|a b|a b c rest IH] using base64url_ind; intros l2 B1 B2 L E.
  - destruct l2; [reflexivity | discriminate].
  - destruct l2 as [|a' [|? ?]]; try discriminate.
    apply Forall_cons_iff in B1, B2. destruct B1 as [Ha _], B2 as [Ha' _].
    cbn in E. injection E as E1 E2.
    destruct (sextet_bounds a 0 Ha ltac:(lia)) as (? & _ & _ & _ & ? & _).
    destruct (sextet_bounds a' 0 Ha' ltac:(lia)) as (? & _ & _ & _ & ? & _).
    apply base64url_char_inj in E1, E2; try assumption.
    euclid a 4%N. euclid a' 4%N. f_equal. lia.
  - destruct l2 as [|a' [|b' [|? ?]]]; try discriminate.
    apply Forall_cons_iff in B1, B2.
    destruct B1 as [Ha B1], B2 as [Ha' B2].
    apply Forall_cons_iff in B1, B2.
    destruct B1 as [Hb _], B2 as [Hb' _].
    cbn in E. injection E as E1 E2 E3.
    destruct (sextet_bounds a b Ha Hb) as (? & ? & _).
    destruct (sextet_bounds a' b' Ha' Hb') as (? & ? & _).
    destruct (sextet_bounds b 0 Hb ltac:(lia)) as (_ & _ & _ & _ & _ & ?).
    destruct (sextet_bounds b' 0 Hb' ltac:(lia)) as (_ & _ & _ & _ & _ & ?).
    apply base64url_char_inj in E1, E2, E3; try assumption.
    euclid a 4%N. euclid a' 4%N. euclid b 16%N. euclid b' 16%N.
    assert (b / 16 < 16)%N by (apply N.Div0.div_lt_upper_bound; lia).
    assert (b' / 16 < 16)%N by (apply N.Div0.div_lt_upper_bound; lia).
    assert (a = a' /\ b = b') as [-> ->] by lia. reflexivity.
  - destruct l2 as [|a' [|b' [|c' rest']]]; try discriminate.
    apply Forall_cons_iff in B1, B2.
    destruct B1 as [Ha B1], B2 as [Ha' B2].
    apply Forall_cons_iff in B1, B2.
    destruct B1 as [Hb B1], B2 as [Hb' B2].
    apply Forall_cons_iff in B1, B2.
    destruct B1 as [Hc B1], B2 as [Hc' B2].
    cbn [ApiKeys.base64url app] in E. injection E as E1 E2 E3 E4 E5.
    destruct (sextet_bounds a b Ha Hb) as (? & ? & _).
    destruct (sextet_bounds a' b' Ha' Hb') as (? & ? & _).
    destruct (sextet_bounds b c Hb Hc) as (_ & _ & ? & _).
    destruct (sextet_bounds b' c' Hb' Hc') as (_ & _ & ? & _).
    destruct (sextet_bounds c c Hc Hc) as (_ & _ & _ & ? & _).
    destruct (sextet_bounds c' c' Hc' Hc') as (_ & _ & _ & ? & _).
    apply base64url_char_inj in E1, E2, E3, E4; try assumption.
    destruct (sextets_inj_3 a b c a' b' c') as (-> & -> & ->); try assumption.
    do 3 f_equal. apply IH; auto. cbn in L. lia.
Qed.

Lemma trim_no_blank (s : jsstring) :
  forallb (fun c => negb (is_white_space c)) s = true -> trim s = s.
Proof.
  intros H.
  assert (T : forall l, forallb (fun c => negb (is_white_space c)) l = true ->
                        trimStart l = l).
  { intros [|c l]; [reflexivity|]. cbn. intros Hl.
    apply andb_true_iff in Hl. destruct Hl as [Hc _].
    apply negb_true_iff in Hc. now rewrite Hc. }
  unfold trim. rewrite (T s H), T.
  - apply rev_involutive.
  - rewrite forallb_forall in *. intros c Hc. apply H. now apply in_rev.
Qed.

(** X1. A key made by [generateApiKey] from the 32 octets of
    [randomBytes(32)] has 43 characters, all of the base64url alphabet,
    so no white space surrounds it and [resolveTagFromApiKey] does not
    refuse it for its length: the key is verified against the stored
    hashes. *)
Theorem generated_key_is_well_formed (random : list N) :
  ApiKeys.random32 random ->
  let key := ApiKeys.generateApiKey random in
  str_length key = 43
  /\ forallb ApiKeys.base64url_class key = true
  /\ trim key = key
  /\ forall argon2_verify db,
       resolveTagFromApiKey argon2_verify db (VString key)
       = scan argon2_verify key (tag_findMany db).
Proof.
  intros [Hlen _] key.
  assert (L : str_length key = 43).
  { unfold str_length, key, ApiKeys.generateApiKey.
    pose proof (base64url_length random) as H. rewrite Hlen in H.
    cbn in H. lia. }
  split; [exact L|]. split; [apply base64url_class_all|]. split.
  - apply trim_no_blank. unfold key, ApiKeys.generateApiKey.
    pose proof (base64url_class_all random) as H.
    rewrite forallb_forall in *. intros c Hc.
    apply negb_true_iff, base64url_not_blank, H, Hc.
  - intros verify db. apply resolve_long_key. lia.
Qed.

Lemma generated_key_is_well_formed_witness :
  str_length (ApiKeys.generateApiKey MoreSamples.sample_random) = 43.
Proof.
  apply (generated_key_is_well_formed MoreSamples.sample_random).
  split; [reflexivity|].
  vm_compute. repeat (constructor; [reflexivity|]). constructor.
Defined.

(** X2. Different draws of [randomBytes(32)] give different keys:
    [generateApiKey] loses nothing of the 32 octets. *)
Theorem generated_keys_differ (random1 random2 : list N) :
  ApiKeys.random32 random1 -> ApiKeys.random32 random2 ->
  ApiKeys.generateApiKey random1 = ApiKeys.generateApiKey random2 ->
  random1 = random2.
Proof.
  intros [L1 B1] [L2 B2] E.
  apply base64url_inj; auto. congruence.
Qed.

Lemma generated_keys_differ_witness :
  ApiKeys.generateApiKey MoreSamples.sample_random
  <> ApiKeys.generateApiKey MoreSamples.other_random.
Proof.
  intros E.
  apply (generated_keys_differ MoreSamples.sample_random
                               MoreSamples.other_random) in E.
  - discriminate E.
  - split; [reflexivity|].
    vm_compute. repeat (constructor; [reflexivity|]). constructor.
  - split; [reflexivity|].
    vm_compute. repeat (constructor; [reflexivity|]). constructor.
Defined.

(** ** Usernames *)

Lemma USERNAME_PATTERN_spec (s : jsstring) :
  test Tags.USERNAME_PATTERN s = true
  <-> s <> [] /\ forallb Tags.username_class s = true.
Proof.
  rewrite test_matches. apply matches_Plus_Class.
Qed.

Lemma lower_unit_username (c : N) :
  Tags.username_class c = true -> lower_unit c = c.
Proof.
  unfold Tags.username_class, lower_unit. intros H.
  assert (A : ((65 <=? c) && (c <=? 90))%N = false).
  { apply andb_false_iff.
    repeat (apply orb_true_iff in H; destruct H as [H|H]);
      try (apply andb_true_iff in H; destruct H as [H1 H2];
           apply N.leb_le in H1, H2);
      try apply N.eqb_eq in H;
      first [left; apply N.leb_gt; lia | right; apply N.leb_gt; lia]. }
  assert (B : (c =? 8490)%N = false).
  { apply N.eqb_neq.
    repeat (apply orb_true_iff in H; destruct H as [H|H]);
      try (apply andb_true_iff in H; destruct H as [H1 H2];
           apply N.leb_le in H1, H2);
      try apply N.eqb_eq in H; lia. }
  now rewrite A, B.
Qed.

Lemma toLowerCase_username (s : jsstring) :
  forallb Tags.username_class s = true -> toLowerCase s = s.
Proof.
  unfold toLowerCase. induction s as [|c s IH]; cbn; [reflexivity|].
  intros H. apply andb_true_iff in H. destruct H as [Hc Hs].
  now rewrite lower_unit_username, IH.
Qed.

Lemma lower_unit_idempotent (c : N) : lower_unit (lower_unit c) = lower_unit c.
Proof.
  unfold lower_unit.
  destruct ((65 <=? c) && (c <=? 90))%N eqn:A.
  - apply andb_true_iff in A. destruct A as [A1 A2].
    apply N.leb_le in A1, A2.
    assert (A' : ((65 <=? c + 32) && (c + 32 <=? 90))%N = false)
      by (apply andb_false_iff; right; apply N.leb_gt; lia).
    assert (B' : (c + 32 =? 8490)%N = false) by (apply N.eqb_neq; lia).
    now rewrite A', B'.
  - destruct (c =? 8490)%N eqn:B; [reflexivity|]. now rewrite A, B.
Qed.

Lemma toLowerCase_idempotent (s : jsstring) :
  toLowerCase (toLowerCase s) = toLowerCase s.
Proof.
  unfold toLowerCase. rewrite map_map. apply map_ext.
  intros c. apply lower_unit_idempotent.
Qed.

Lemma find_app_last {A : Type} (p : A -> bool) (l : list A) (x : A) :
  find p l = None -> find p (l ++ [x]) = if p x then Some x else None.
Proof.
  induction l as [|y l IH]; cbn; [reflexivity|].
  destruct (p y); [discriminate | exact IH].
Qed.

Lemma find_app_first {A : Type} (p : A -> bool) (l : list A) (x y : A) :
  find p l = Some y -> find p (l ++ [x]) = Some y.
Proof.
  induction l as [|z l IH]; cbn; [discriminate|].
  destruct (p z); [trivial | exact IH].
Qed.


(** X3. [registerBody] accepts exactly a [username] that is a string of
    3 to 20 characters of [a-z0-9_] together with a [walletAddress] that
    is a non-empty string; the username it passes on is the one
    submitted, unchanged (a capital letter is refused by the pattern
    before the lower-casing is reached). *)
Theorem registerBody_spec (body : option Register.RegisterRequestBody)
    (d : Register.RegisterData) :
  Register.registerBody body = Some d
  <-> exists b,
        body = Some b
        /\ Register.body_username b = VString (Register.data_username d)
        /\ 3 <= str_length (Register.data_username d) <= 20
        /\ forallb Tags.username_class (Register.data_username d) = true
        /\ Register.body_walletAddress b
           = VString (Register.data_walletAddress d)
        /\ Register.data_walletAddress d <> [].
Proof.
  unfold Register.registerBody, Register.z_username, Receipts.z_string_min.
  split.
  - destruct body as [b|]; [|discriminate].
    destruct (Register.body_username b) as [| | | |u|] eqn:Hu;
      try discriminate.
    destruct (str_length u <? 3) eqn:E1; [discriminate|].
    destruct (20 <? str_length u) eqn:E2; [discriminate|].
    destruct (test Tags.USERNAME_PATTERN u) eqn:E3; [|discriminate].
    cbn [orb negb].
    destruct (Register.body_walletAddress b) as [| | | |w|] eqn:Hw;
      try discriminate.
    destruct (str_length w <? 1) eqn:E4; [discriminate|].
    intros [= <-]. cbn.
    apply USERNAME_PATTERN_spec in E3. destruct E3 as [_ E3].
    rewrite (toLowerCase_username u E3).
    apply Z.ltb_ge in E1, E2, E4.
    exists b. split; [reflexivity|]. split; [exact Hu|].
    split; [lia|]. split; [exact E3|]. split; [exact Hw|].
    intros E. rewrite E in E4. cbn in E4. lia.
  - intros (b & -> & Hu & Hlen & Hclass & Hw & Hne).
    rewrite Hu, Hw.
    assert (E1 : (str_length (Register.data_username d) <? 3) = false)
      by (apply Z.ltb_ge; lia).
    assert (E2 : (20 <? str_length (Register.data_username d)) = false)
      by (apply Z.ltb_ge; lia).
    assert (E3 : test Tags.USERNAME_PATTERN (Register.data_username d) = true).
    { apply USERNAME_PATTERN_spec. split; [|exact Hclass].
      intros E. rewrite E in Hlen. cbn in Hlen. lia. }
    assert (E4 : (str_length (Register.data_walletAddress d) <? 1) = false).
    { apply Z.ltb_ge. unfold str_length.
      destruct (Register.data_walletAddress d); [congruence | cbn; lia]. }
    rewrite E1, E2, E3, E4. cbn [orb negb].
    rewrite (toLowerCase_username _ Hclass). destruct d; reflexivity.
Qed.

(** ** Registration *)

Lemma registerBody_spec_fields (body : option Register.RegisterRequestBody)
    (d : Register.RegisterData) :
  Register.registerBody body = Some d ->
  3 <= str_length (Register.data_username d) <= 20
  /\ forallb Tags.username_class (Register.data_username d) = true.
Proof.
  unfold Register.registerBody, Register.z_username.
  destruct body as [b|]; [|discriminate].
  destruct (Register.body_username b) as [| | | |u|]; try discriminate.
  destruct (str_length u <? 3) eqn:E1; [discriminate|].
  destruct (20 <? str_length u) eqn:E2; [discriminate|].
  destruct (test Tags.USERNAME_PATTERN u) eqn:E3; [|discriminate].
  cbn [orb negb].
  destruct (Receipts.z_string_min 1 (Register.body_walletAddress b));
    [|discriminate].
  intros [= <-]. cbn.
  apply USERNAME_PATTERN_spec in E3. destruct E3 as [_ E3].
  rewrite (toLowerCase_username u E3).
  apply Z.ltb_ge in E1, E2. split; [lia | exact E3].
Qed.

Section RegisterFacts.

Variable argon2_hash : list N -> jsstring -> Outcome jsstring.
Variable salt random : list N.
Variable fresh_id : jsstring.
Variable now : Z.
Variable db : Db.
Variable body : option Register.RegisterRequestBody.

Local Abbreviation register :=
  (Register.register_route argon2_hash salt random fresh_id now db body).
Local Abbreviation key := (ApiKeys.generateApiKey random).

Lemma register_created (resp : Response) (db' : Db) :
  register = Returns (resp, db') ->
  status resp = 201 ->
  exists d h,
    Register.registerBody body = Some d
    /\ tag_findUnique_username db (Register.data_username d) = None
    /\ argon2_hash salt key = Returns h
    /\ db' = {| tags := tags db
                        ++ [{| tag_id := fresh_id;
                               tag_username := Register.data_username d;
                               tag_walletAddress := Register.data_walletAddress d;
                               tag_apiKeyHash := h;
                               tag_createdAt := now |}];
                receipts := receipts db |}
    /\ payload resp
       = JObj [ (js "username", JStr (Register.data_username d));
                (js "walletAddress", JStr (Register.data_walletAddress d));
                (js "apiKey", JStr key) ].
Proof.
  unfold Register.register_route.
  destruct (Register.registerBody body) as [d|];
    [|intros [= <- <-]; discriminate].
  destruct (tag_findUnique_username db (Register.data_username d)) eqn:Hfree;
    [intros [= <- <-]; discriminate|].
  unfold ApiKeys.hashApiKey, Register.tag_create. rewrite Hfree.
  destruct (argon2_hash salt key) as [h|e]; cbn; [|discriminate].
  intros [= <- <-] _. exists d, h. repeat split; auto.
Qed.

Lemma register_refused (resp : Response) (db' : Db) :
  register = Returns (resp, db') ->
  status resp <> 201 ->
  db' = db
  /\ ((status resp = 400 /\ Register.registerBody body = None)
      \/ (status resp = 409
          /\ exists d t, Register.registerBody body = Some d
                         /\ tag_findUnique_username db (Register.data_username d)
                            = Some t)).
Proof.
  unfold Register.register_route.
  destruct (Register.registerBody body) as [d|];
    [|intros [= <- <-] _; split; [reflexivity | left; split; reflexivity]].
  destruct (tag_findUnique_username db (Register.data_username d)) as [t|]
    eqn:Hfree.
  - intros [= <- <-] _. split; [reflexivity|]. right.
    split; [reflexivity|]. exists d, t. auto.
  - unfold ApiKeys.hashApiKey, Register.tag_create. rewrite Hfree.
    destruct (argon2_hash salt key) as [h|e]; cbn; [|discriminate].
    intros [= <- <-] H. exfalso. apply H. reflexivity.
Qed.


(** X5. After a registration answered 201, GET /tags/:username finds the
    new tag under its username in any letter case, and answers the
    username and wallet address that were registered. *)
Theorem registered_tag_is_found (resp : Response) (db' : Db) :
  register = Returns (resp, db') ->
  status resp = 201 ->
  exists d,
    Register.registerBody body = Some d
    /\ forall param,
         toLowerCase param = Register.data_username d ->
         Tags.lookup_route db' param
         = {| status := 200;
              payload :=
                JObj [ (js "username", JStr (Register.data_username d));
                       (js "walletAddress",
                        JStr (Register.data_walletAddress d)) ] |}.
Proof.
  intros Hrun E.
  destruct (register_created resp db' Hrun E)
    as (d & h & Hd & Hfree & _ & -> & _).
  exists d. split; [exact Hd|]. intros param Hp.
  apply registerBody_spec_fields in Hd.
  destruct Hd as (Hlen & Hclass).
  unfold Tags.lookup_route. rewrite Hp.
  assert (T : truthy (VString (Register.data_username d)) = true).
  { destruct (Register.data_username d); [cbn in Hlen; lia | reflexivity]. }
  assert (E1 : (str_length (Register.data_username d) <? 3) = false)
    by (apply Z.ltb_ge; lia).
  assert (E2 : (20 <? str_length (Register.data_username d)) = false)
    by (apply Z.ltb_ge; lia).
  assert (E3 : test Tags.USERNAME_PATTERN (Register.data_username d) = true).
  { apply USERNAME_PATTERN_spec. split; [|exact Hclass].
    intros E0. rewrite E0 in Hlen. cbn in Hlen. lia. }
  rewrite T, E1, E2, E3. cbn [negb orb].
  unfold tag_findUnique_username in *. cbn [tags].
  rewrite (find_app_last _ _ _ Hfree). cbn [tag_username].
  now rewrite str_eqb_refl.
Qed.

End RegisterFacts.

(** X6. The key that a registration answered 201 returns resolves to the
    new tag: when the library verifies the key against the hash it made
    of it, and no older stored hash verifies it, [resolveTagFromApiKey]
    answers the id and username of the tag just created. *)
Theorem registered_key_resolves
    (argon2_hash : list N -> jsstring -> Outcome jsstring)
    (argon2_verify : jsstring -> jsstring -> Outcome bool)
    (salt random : list N) (fresh_id : jsstring) (now : Z) (db : Db)
    (body : option Register.RegisterRequestBody)
    (resp : Response) (db' : Db) :
  let key := ApiKeys.generateApiKey random in
  ApiKeys.random32 random ->
  Register.register_route argon2_hash salt random fresh_id now db body
  = Returns (resp, db') ->
  status resp = 201 ->
  (forall h, argon2_hash salt key = Returns h ->
             argon2_verify h key = Returns true) ->
  Forall (rejects argon2_verify key) (tags db) ->
  exists d,
    Register.registerBody body = Some d
    /\ payload resp
       = JObj [ (js "username", JStr (Register.data_username d));
                (js "walletAddress", JStr (Register.data_walletAddress d));
                (js "apiKey", JStr key) ]
    /\ resolveTagFromApiKey argon2_verify db' (VString key)
       = Returns (Some {| ident_id := fresh_id;
                          ident_username := Register.data_username d |}).
Proof.
  intros key Hrandom Hrun E Hlib Hold.
  destruct (register_created _ _ _ _ _ _ _ resp db' Hrun E)
    as (d & h & Hd & Hfree & Hh & -> & Hpay).
  exists d. split; [exact Hd|]. split; [exact Hpay|].
  rewrite resolve_long_key.
  - cbn [tags]. rewrite scan_first by exact Hold.
    unfold verifyApiKey. cbn [tag_apiKeyHash]. rewrite (Hlib h Hh).
    reflexivity.
  - pose proof (base64url_length random) as HL.
    destruct Hrandom as [Hlen _]. rewrite Hlen in HL. cbn in HL.
    unfold str_length, key, ApiKeys.generateApiKey. lia.
Qed.


Lemma registered_tag_is_found_witness :
  Tags.lookup_route MoreSamples.db_with_dave (js "DAVE")
  = {| status := 200;
       payload := JObj [ (js "username", JStr (js "dave"));
                         (js "walletAddress", JStr (js "walletD")) ] |}.
Proof.
  destruct (registered_tag_is_found MoreSamples.sample_hash []
              MoreSamples.sample_random (js "t9") 5000 Samples.db0
              (MoreSamples.register_body "dave" "walletD")
              MoreSamples.dave_registered MoreSamples.db_with_dave
              eq_refl eq_refl) as (d & Hd & Hfound).
  injection Hd as <-. apply Hfound. reflexivity.
Defined.

Lemma registered_key_resolves_witness :
  resolveTagFromApiKey Samples.sample_verify MoreSamples.db_with_dave
    (VString (ApiKeys.generateApiKey MoreSamples.sample_random))
  = Returns (Some {| ident_id := js "t9"; ident_username := js "dave" |}).
Proof.
  destruct (registered_key_resolves MoreSamples.sample_hash
              Samples.sample_verify [] MoreSamples.sample_random
              (js "t9") 5000 Samples.db0
              (MoreSamples.register_body "dave" "walletD")
              MoreSamples.dave_registered MoreSamples.db_with_dave)
    as (d & Hd & _ & Hres).
  - split; [reflexivity|].
    vm_compute. repeat (constructor; [reflexivity|]). constructor.
  - reflexivity.
  - reflexivity.
  - intros h [= <-]. vm_compute. reflexivity.
  - repeat (constructor; [vm_compute; reflexivity|]). constructor.
  - injection Hd as <-. exact Hres.
Defined.

(** ** Wallet update *)

Lemma nth_error_map_if {A : Type} (p : A -> bool) (f : A -> A) (l : list A)
    (n : nat) (x : A) :
  nth_error l n = Some x ->
  nth_error (map (fun u => if p u then f u else u) l) n
  = Some (if p x then f x else x).
Proof.
  intros H. rewrite nth_error_map, H. reflexivity.
Qed.

Lemma update_wallet_run (db : Db) (tag : Identity) (body : option JsValue)
    (resp : Response) (db' : Db) :
  Tags.update_wallet_route db tag body = Returns (resp, db') ->
  (status resp = 400 /\ db' = db /\ Tags.updateWalletBody body = None)
  \/ (exists w t,
        Tags.updateWalletBody body = Some w
        /\ tag_findUnique_id db (ident_id tag) = Some t
        /\ resp = {| status := 200;
                     payload :=
                       JObj [ (js "username", JStr (tag_username t));
                              (js "walletAddress", JStr w) ] |}
        /\ db' = {| tags := map (fun u => if str_eqb (tag_id u) (ident_id tag)
                                          then set_wallet w u else u) (tags db);
                    receipts := receipts db |}).
Proof.
  unfold Tags.update_wallet_route.
  destruct (Tags.updateWalletBody body) as [w|].
  - unfold tag_update_wallet.
    destruct (tag_findUnique_id db (ident_id tag)) as [t|] eqn:Ht; cbn;
      [|discriminate].
    intros [= <- <-]. right. exists w, t. auto.
  - intros [= <- <-]. left. auto.
Qed.

(** X7. PATCH /tags/me changes nothing but the wallet address of the
    caller's own tag: receipts, and the id, username, credential hash and
    creation time of every tag are kept, every tag with another id is
    kept whole, and on 200 the caller's tag has the new address.  A body
    that is refused is answered 400 with the store as it was; when no tag
    has the caller's id the update raises. *)
Theorem update_changes_only_the_wallet (db : Db) (tag : Identity)
    (body : option JsValue) :
  (forall resp db',
      Tags.update_wallet_route db tag body = Returns (resp, db') ->
      receipts db' = receipts db
      /\ map tag_id (tags db') = map tag_id (tags db)
      /\ map tag_username (tags db') = map tag_username (tags db)
      /\ map tag_apiKeyHash (tags db') = map tag_apiKeyHash (tags db)
      /\ map tag_createdAt (tags db') = map tag_createdAt (tags db)
      /\ (forall n t, nth_error (tags db) n = Some t ->
                      tag_id t <> ident_id tag ->
                      nth_error (tags db') n = Some t)
      /\ (status resp = 200 ->
          exists w, Tags.updateWalletBody body = Some w
                    /\ forall n t, nth_error (tags db) n = Some t ->
                                   tag_id t = ident_id tag ->
                                   nth_error (tags db') n
                                   = Some (set_wallet w t))
      /\ (status resp <> 200 -> status resp = 400 /\ db' = db))
  /\ (Tags.updateWalletBody body = None ->
      Tags.update_wallet_route db tag body
      = Returns (Receipts.validation_failed, db))
  /\ (forall w, Tags.updateWalletBody body = Some w ->
                tag_findUnique_id db (ident_id tag) = None ->
                Tags.update_wallet_route db tag body = Throws StoreError).
Proof.
  split; [|split].
  - intros resp db' Hrun.
    destruct (update_wallet_run db tag body resp db' Hrun)
      as [(E & -> & _)|(w & t & Hw & Ht & -> & ->)].
    + repeat split; auto; try congruence.
    + cbn [tags receipts status].
      split; [reflexivity|].
      repeat (split; [rewrite map_map; apply map_ext; intros u;
                      destruct (str_eqb (tag_id u) (ident_id tag));
                      reflexivity|]).
      split.
      { intros n u Hn Hne. rewrite (nth_error_map_if _ _ _ _ _ Hn).
        apply str_eqb_neq in Hne. now rewrite Hne. }
      split.
      { intros _. exists w. split; [exact Hw|].
        intros n u Hn He. rewrite (nth_error_map_if _ _ _ _ _ Hn).
        rewrite He, str_eqb_refl. reflexivity. }
      intros H. exfalso. apply H. reflexivity.
  - intros H. unfold Tags.update_wallet_route. now rewrite H.
  - intros w Hw Hnone. unfold Tags.update_wallet_route, tag_update_wallet.
    now rewrite Hw, Hnone.
Qed.

Lemma update_changes_only_the_wallet_witness :
  nth_error (tags MoreSamples.db_bob_moved) 1
  = Some (set_wallet (js "walletB2") Samples.bob)
  /\ nth_error (tags MoreSamples.db_bob_moved) 0 = Some Samples.alice
  /\ nth_error (tags MoreSamples.db_bob_moved) 2 = Some Samples.carol
  /\ receipts MoreSamples.db_bob_moved = receipts Samples.db0.
Proof.
  destruct (proj1 (update_changes_only_the_wallet Samples.db0
                     (identity_of Samples.bob)
                     (Some (VString (js "walletB2"))))
              MoreSamples.bob_moved MoreSamples.db_bob_moved eq_refl)
    as (Hreceipts & _ & _ & _ & _ & Hothers & H200 & _).
  destruct (H200 eq_refl) as (w & Hw & Hown).
  vm_compute in Hw. injection Hw as <-.
  split; [exact (Hown 1%nat Samples.bob eq_refl eq_refl)|].
  split; [apply (Hothers 0%nat Samples.alice eq_refl); vm_compute; discriminate|].
  split; [apply (Hothers 2%nat Samples.carol eq_refl); vm_compute; discriminate|].
  exact Hreceipts.
Defined.

(** X8. After PATCH /tags/me answered by the caller's tag, GET
    /tags/:username of that tag answers the new wallet address: for a
    caller whose tag is the one found under its id and under its
    username, and whose username has the registered form, the update
    answers 200 and the lookup then gives the address just written. *)
Theorem updated_wallet_is_found (db : Db) (tag : Identity)
    (body : option JsValue) (w : jsstring) (t : Tag) :
  Tags.updateWalletBody body = Some w ->
  tag_findUnique_id db (ident_id tag) = Some t ->
  tag_findUnique_username db (tag_username t) = Some t ->
  3 <= str_length (tag_username t) <= 20 ->
  forallb Tags.username_class (tag_username t) = true ->
  exists db',
    Tags.update_wallet_route db tag body
    = Returns ({| status := 200;
                  payload := JObj [ (js "username", JStr (tag_username t));
                                    (js "walletAddress", JStr w) ] |}, db')
    /\ Tags.lookup_route db' (tag_username t)
       = {| status := 200;
            payload := JObj [ (js "username", JStr (tag_username t));
                              (js "walletAddress", JStr w) ] |}.
Proof.
  intros Hw Ht Hu Hlen Hclass.
  unfold Tags.update_wallet_route, tag_update_wallet. rewrite Hw, Ht.
  cbn [bind]. eexists. split; [reflexivity|].
  unfold Tags.lookup_route. rewrite (toLowerCase_username _ Hclass).
  assert (T : truthy (VString (tag_username t)) = true).
  { destruct (tag_username t); [cbn in Hlen; lia | reflexivity]. }
  assert (E1 : (str_length (tag_username t) <? 3) = false)
    by (apply Z.ltb_ge; lia).
  assert (E2 : (20 <? str_length (tag_username t)) = false)
    by (apply Z.ltb_ge; lia).
  assert (E3 : test Tags.USERNAME_PATTERN (tag_username t) = true).
  { apply USERNAME_PATTERN_spec. split; [|exact Hclass].
    intros E0. rewrite E0 in Hlen. cbn in Hlen. lia. }
  rewrite T, E1, E2, E3. cbn [negb orb].
  unfold tag_findUnique_username in *. cbn [tags].
  rewrite find_map_same.
  - rewrite Hu. cbn [option_map].
    unfold tag_findUnique_id in Ht. apply find_some in Ht.
    destruct Ht as [_ Hid]. rewrite Hid. reflexivity.
  - intros u. destruct (str_eqb (tag_id u) (ident_id tag)); reflexivity.
Qed.

Lemma updated_wallet_is_found_witness :
  exists db',
    Tags.update_wallet_route Samples.db0 (identity_of Samples.bob)
      (Some (VString (js "walletB2")))
    = Returns ({| status := 200;
                  payload := JObj [ (js "username", JStr (js "bob"));
                                    (js "walletAddress",
                                     JStr (js "walletB2")) ] |}, db')
    /\ Tags.lookup_route db' (js "bob")
       = {| status := 200;
            payload := JObj [ (js "username", JStr (js "bob"));
                              (js "walletAddress", JStr (js "walletB2")) ] |}.
Proof.
  apply (updated_wallet_is_found Samples.db0 (identity_of Samples.bob)
           (Some (VString (js "walletB2"))) (js "walletB2") Samples.bob);
    try reflexivity.
  vm_compute. split; discriminate.
Defined.

(** ** Credentials across the routes that write *)

Section CredentialFacts.

Variable argon2_verify : jsstring -> jsstring -> Outcome bool.

Local Abbreviation resolve := (resolveTagFromApiKey argon2_verify).

Lemma scan_map_same (f : Tag -> Tag) (s : jsstring) (l : list Tag) :
  (forall t, tag_apiKeyHash (f t) = tag_apiKeyHash t
             /\ identity_of (f t) = identity_of t) ->
  scan argon2_verify s (map f l) = scan argon2_verify s l.
Proof.
  intros Hf. induction l as [|t l IH]; cbn; [reflexivity|].
  destruct (Hf t) as [-> ->]. now rewrite IH.
Qed.

Lemma scan_app_decided (s : jsstring) (l more : list Tag) :
  scan argon2_verify s l <> Returns None ->
  scan argon2_verify s (l ++ more) = scan argon2_verify s l.
Proof.
  induction l as [|t l IH]; cbn; [congruence|].
  destruct (verifyApiKey argon2_verify s (tag_apiKeyHash t)) as [[|]|e];
    cbn; auto.
Qed.

Lemma resolve_same_tags (db db' : Db) (key : JsValue) :
  (forall s, scan argon2_verify s (tags db') = scan argon2_verify s (tags db)) ->
  resolve db' key = resolve db key.
Proof.
  intros H. unfold resolveTagFromApiKey, tag_findMany.
  destruct key; try reflexivity.
  destruct (negb _ || _); [reflexivity | apply H].
Qed.

(** X9. The routes that write leave credentials as they are: after a
    wallet update or a receipt creation every presented key resolves as
    it did before, and after a registration a key that resolved to an
    identity (or whose verification raised) still does, to the same
    identity. *)
Theorem credentials_are_stable (db : Db) (key : JsValue) :
  (forall tag body resp db',
      Tags.update_wallet_route db tag body = Returns (resp, db') ->
      resolve db' key = resolve db key)
  /\ (forall env fresh_id now reqTag body resp db',
      Receipts.create_route env fresh_id now db reqTag body
      = Returns (resp, db') ->
      resolve db' key = resolve db key)
  /\ (forall argon2_hash salt random fresh_id now body resp db',
      Register.register_route argon2_hash salt random fresh_id now db body
      = Returns (resp, db') ->
      resolve db key <> Returns None ->
      resolve db' key = resolve db key).
Proof.
  split; [|split].
  - intros tag body resp db' Hrun. apply resolve_same_tags. intros s.
    destruct (update_wallet_run db tag body resp db' Hrun)
      as [(_ & -> & _)|(w & t & _ & _ & _ & ->)]; [reflexivity|].
    cbn [tags]. apply scan_map_same. intros u.
    destruct (str_eqb (tag_id u) (ident_id tag)); split; reflexivity.
  - intros env fresh_id now reqTag body resp db' Hrun.
    apply resolve_same_tags. intros s.
    unfold Receipts.create_route in Hrun.
    destruct (Receipts.createBody body) as [d|];
      [|injection Hrun as _ <-; reflexivity].
    destruct (negb _ && negb _); [injection Hrun as _ <-; reflexivity|].
    destruct (tag_findUnique_username db (Receipts.data_fromTag d));
      [|injection Hrun as _ <-; reflexivity].
    destruct (tag_findUnique_username db (Receipts.data_toTag d));
      [|injection Hrun as _ <-; reflexivity].
    destruct (BigInt_of_Number (Receipts.data_amountLamports d)) as [z|];
      [|discriminate].
    cbn [bind] in Hrun. unfold receipt_create in Hrun.
    destruct (fits_BIGINT z); [|discriminate].
    cbn in Hrun. injection Hrun as _ <-. reflexivity.
  - intros argon2_hash salt random fresh_id now body resp db' Hrun Hdecided.
    destruct (Z.eq_dec (status resp) 201) as [E|E].
    + destruct (register_created _ _ _ _ _ _ _ resp db' Hrun E)
        as (d & h & _ & _ & _ & -> & _).
      unfold resolveTagFromApiKey, tag_findMany in *.
      destruct key; try reflexivity.
      destruct (negb _ || _); [reflexivity|].
      cbn [tags]. now apply scan_app_decided.
    + destruct (register_refused _ _ _ _ _ _ _ resp db' Hrun E) as [-> _].
      reflexivity.
Qed.

End CredentialFacts.

Lemma credentials_are_stable_witness :
  resolveTagFromApiKey Samples.sample_verify MoreSamples.db_with_dave
                       (VString Samples.bob_key)
  = resolveTagFromApiKey Samples.sample_verify Samples.db0
                         (VString Samples.bob_key).
Proof.
  apply (proj2 (proj2 (credentials_are_stable Samples.sample_verify
                         Samples.db0 (VString Samples.bob_key)))
           MoreSamples.sample_hash [] MoreSamples.sample_random
           (js "t9") 5000 (MoreSamples.register_body "dave" "walletD")
           MoreSamples.dave_registered MoreSamples.db_with_dave eq_refl).
  vm_compute. discriminate.
Defined.

(** ** Receipts after a creation *)

Lemma create_created (env : option jsstring) (fresh_id : jsstring) (now : Z)
    (db : Db) (reqTag : Identity) (body : option Receipts.CreateRequestBody)
    (resp : Response) (db' : Db) :
  Receipts.create_route env fresh_id now db reqTag body = Returns (resp, db') ->
  (status resp <> 201 /\ db' = db)
  \/ (status resp = 201
      /\ exists r, id r = fresh_id /\ createdAt r = now
                   /\ db' = {| tags := tags db; receipts := receipts db ++ [r] |}
                   /\ (exists f, In f (tags db) /\ fromTagId r = tag_id f)
                   /\ (exists t, In t (tags db) /\ toTagId r = tag_id t)).
Proof.
  unfold Receipts.create_route.
  destruct (Receipts.createBody body) as [d|];
    [|intros [= <- <-]; left; split; [discriminate | reflexivity]].
  destruct (negb _ && negb _);
    [intros [= <- <-]; left; split; [discriminate | reflexivity]|].
  destruct (tag_findUnique_username db (Receipts.data_fromTag d)) as [f|] eqn:Hf;
    [|intros [= <- <-]; left; split; [discriminate | reflexivity]].
  destruct (tag_findUnique_username db (Receipts.data_toTag d)) as [t|] eqn:Ht;
    [|intros [= <- <-]; left; split; [discriminate | reflexivity]].
  destruct (BigInt_of_Number (Receipts.data_amountLamports d)) as [z|];
    [|discriminate].
  cbn [bind]. unfold receipt_create.
  destruct (fits_BIGINT z); [|discriminate].
  cbn. intros [= <- <-]. right. split; [reflexivity|].
  exists {| id := fresh_id; signature := Receipts.data_signature d;
            memo := Receipts.data_memo d; fromTagId := tag_id f;
            toTagId := tag_id t; amountLamports := z; createdAt := now |}.
  split; [reflexivity|]. split; [reflexivity|].
  split; [reflexivity|]. cbn [fromTagId toTagId].
  apply find_some in Hf, Ht. split; [exists f | exists t]; tauto.
Qed.

Lemma find_app_other {A : Type} (p : A -> bool) (l : list A) (x : A) :
  p x = false -> find p (l ++ [x]) = find p l.
Proof.
  intros Hx. induction l as [|y l IH]; cbn; [now rewrite Hx|].
  destruct (p y); [reflexivity | exact IH].
Qed.

(** X10. A receipt created with 201 joins the list of each of its two
    parties and of nobody else: the receipts listed for its [fromTag] and
    for its [toTag] are the former ones and the new one, and the list of
    any other tag is what it was.  A creation that is refused changes no
    list. *)
Theorem created_receipt_is_listed (env : option jsstring)
    (fresh_id : jsstring) (now : Z) (db : Db) (reqTag : Identity)
    (body : option Receipts.CreateRequestBody) (resp : Response) (db' : Db) :
  Receipts.create_route env fresh_id now db reqTag body = Returns (resp, db') ->
  (status resp <> 201 ->
   forall c, receipt_findMany_all db' c = receipt_findMany_all db c)
  /\ (status resp = 201 ->
      exists r,
        receipts db' = receipts db ++ [r] /\ id r = fresh_id
        /\ (forall c, c = fromTagId r \/ c = toTagId r ->
              Permutation (receipt_findMany_all db' c)
                          (r :: receipt_findMany_all db c))
        /\ (forall c, c <> fromTagId r -> c <> toTagId r ->
              receipt_findMany_all db' c = receipt_findMany_all db c)).
Proof.
  intros Hrun.
  destruct (create_created _ _ _ _ _ _ _ _ Hrun)
    as [[Hno ->]|(H201 & r & Hid & _ & -> & _)].
  - split; [reflexivity | contradiction].
  - split; [intros H; contradiction|]. intros _.
    exists r. cbn [receipts]. split; [reflexivity|]. split; [exact Hid|].
    unfold receipt_findMany_all. cbn [receipts]. split.
    + intros c Hc.
      assert (P : party_of c r = true).
      { unfold party_of. destruct Hc as [-> | ->]; rewrite str_eqb_refl;
          [reflexivity | apply orb_true_r]. }
      rewrite filter_app. cbn [filter]. rewrite P.
      rewrite orderBy_perm.
      rewrite <- Permutation_cons_append. constructor.
      symmetry. apply orderBy_perm.
    + intros c Hf Ht.
      assert (P : party_of c r = false).
      { unfold party_of. apply orb_false_iff.
        split; apply str_eqb_neq; congruence. }
      rewrite filter_app. cbn [filter]. rewrite P. now rewrite app_nil_r.
Qed.

Lemma created_receipt_is_listed_witness :
  Permutation (receipt_findMany_all MoreSamples.db_with_r9 (js "t2"))
              (MoreSamples.r9 :: receipt_findMany_all Samples.db0 (js "t2")).
Proof.
  destruct (proj2 (created_receipt_is_listed None (js "r9") 4000 Samples.db0
                     (identity_of Samples.alice)
                     (Samples.create_body "alice" "bob" (NInt 5))
                     MoreSamples.r9_created MoreSamples.db_with_r9 eq_refl)
              eq_refl) as (r & Hrows & _ & Hparty & _).
  apply app_inj_tail in Hrows. destruct Hrows as [_ <-].
  apply Hparty. right. reflexivity.
Defined.

Lemma username_of_same_names (db db' : Db) (f : Tag -> Tag) :
  tags db' = map f (tags db) ->
  (forall t, tag_id (f t) = tag_id t /\ tag_username (f t) = tag_username t) ->
  forall i, username_of db' i = username_of db i.
Proof.
  intros Ht Hf i. unfold username_of, tag_findUnique_id. rewrite Ht.
  rewrite find_map_same.
  - destruct (find _ (tags db)) as [t|]; cbn; [apply Hf | reflexivity].
  - intros t. now destruct (Hf t) as [-> _].
Qed.

(** X11. What is stored of a receipt is not rewritten: after a receipt
    creation GET /:id answers for every other id what it answered
    before, and after a wallet update GET /:id and GET / answer for every
    caller what they answered before. *)
Theorem stored_receipts_read_the_same (env : option jsstring) (db : Db) :
  (forall env' fresh_id now reqTag body resp db',
      Receipts.create_route env' fresh_id now db reqTag body
      = Returns (resp, db') ->
      forall C i, i <> fresh_id ->
                  Receipts.get_route env db' C i = Receipts.get_route env db C i)
  /\ (forall tag body resp db',
      Tags.update_wallet_route db tag body = Returns (resp, db') ->
      (forall C i,
          Receipts.get_route env db' C i = Receipts.get_route env db C i)
      /\ (forall C ql qc,
          Receipts.list_route env db' C ql qc
          = Receipts.list_route env db C ql qc)).
Proof.
  split.
  - intros env' fresh_id now reqTag body resp db' Hrun C i Hi.
    destruct (create_created _ _ _ _ _ _ _ _ Hrun)
      as [[_ ->]|(_ & r & Hid & _ & -> & _)]; [reflexivity|].
    unfold Receipts.get_route, receipt_findUnique. cbn [receipts].
    rewrite find_app_other; [reflexivity|].
    rewrite Hid. apply str_eqb_neq. congruence.
  - intros tag body resp db' Hrun.
    destruct (update_wallet_run db tag body resp db' Hrun)
      as [(_ & -> & _)|(w & t & _ & _ & _ & ->)];
      [split; reflexivity|].
    set (db' := {| tags := _; receipts := receipts db |}).
    assert (U : forall i, username_of db' i = username_of db i).
    { apply (username_of_same_names db db'
               (fun u => if str_eqb (tag_id u) (ident_id tag)
                         then set_wallet w u else u)); [reflexivity|].
      intros u. destruct (str_eqb (tag_id u) (ident_id tag));
        split; reflexivity. }
    assert (I : forall r, Receipts.include_tags db' r
                          = Receipts.include_tags db r).
    { intros r. unfold Receipts.include_tags. now rewrite !U. }
    split.
    + intros C i. unfold Receipts.get_route.
      change (receipt_findUnique db' i) with (receipt_findUnique db i).
      destruct (receipt_findUnique db i); [|reflexivity].
      now rewrite I.
    + intros C ql qc. unfold Receipts.list_route. f_equal. f_equal.
      unfold Receipts.list_page.
      change (receipt_findMany db' (ident_id C) (Receipts.limit_of ql + 1)
                (Receipts.cursor_of qc)
                match Receipts.cursor_of qc with Some _ => 1 | None => 0 end)
        with (receipt_findMany db (ident_id C) (Receipts.limit_of ql + 1)
                (Receipts.cursor_of qc)
                match Receipts.cursor_of qc with Some _ => 1 | None => 0 end).
      assert (M : forall l,
                 map (fun r => Receipts.toReceiptItem env
                                 (Receipts.include_tags db' r)) l
                 = map (fun r => Receipts.toReceiptItem env
                                   (Receipts.include_tags db r)) l)
        by (intros l; apply map_ext; intros r; now rewrite I).
      now rewrite M.
Qed.

Lemma stored_receipts_read_the_same_witness :
  Receipts.get_route None MoreSamples.db_with_r9
                     (identity_of Samples.alice) (js "r1")
  = Receipts.get_route None Samples.db0 (identity_of Samples.alice) (js "r1").
Proof.
  apply (proj1 (stored_receipts_read_the_same None Samples.db0)
           None (js "r9") 4000 (identity_of Samples.alice)
           (Samples.create_body "alice" "bob" (NInt 5))
           MoreSamples.r9_created MoreSamples.db_with_r9 eq_refl).
  vm_compute. discriminate.
Defined.

(** ** The hook in front of the handlers *)

Section HookFacts.

Variable argon2_verify : jsstring -> jsstring -> Outcome bool.
Variable db : Db.

Local Abbreviation refused :=
  (Returns (message 401 "Invalid or missing API key", db)).

(** X12. A request for the list of receipts or for one receipt whose
    [x-api-key] header is missing, is not a string or is shorter than 16,
    or more generally does not resolve to a tag, is answered 401 without
    the handler running: the store is what it was.  A header that
    resolves to a tag hands that tag to the handler.  Reading the header
    through [getApiKeyFromRequest] first changes nothing of its
    resolution. *)
Theorem unresolved_keys_are_refused (header : JsValue) :
  resolveTagFromApiKey argon2_verify db (ApiKeys.getApiKeyFromRequest header)
  = resolveTagFromApiKey argon2_verify db header
  /\ ((forall s, header = VString s -> str_length s < 16) ->
      resolveTagFromApiKey argon2_verify db header = Returns None)
  /\ (resolveTagFromApiKey argon2_verify db header = Returns None ->
      (forall env ql qc,
          ApiKeys.GET_receipts argon2_verify env db header ql qc = refused)
      /\ (forall env i,
          ApiKeys.GET_receipts_id argon2_verify env db header i = refused))
  /\ (forall tag,
      resolveTagFromApiKey argon2_verify db header = Returns (Some tag) ->
      (forall env ql qc,
          ApiKeys.GET_receipts argon2_verify env db header ql qc
          = Returns (Receipts.list_route env db tag ql qc, db))
      /\ (forall env i,
          ApiKeys.GET_receipts_id argon2_verify env db header i
          = Returns (Receipts.get_route env db tag i, db))).
Proof.
  split; [destruct header; reflexivity|]. split; [|split].
  - intros Hshort. destruct header as [| | | |s|]; try reflexivity.
    unfold resolveTagFromApiKey.
    assert (E : (str_length s <? 16) = true)
      by (apply Z.ltb_lt, Hshort; reflexivity).
    now rewrite E, orb_true_r.
  - intros H.
    unfold ApiKeys.GET_receipts, ApiKeys.GET_receipts_id,
      ApiKeys.behind_requireApiKey, requireApiKey.
    rewrite H. split; reflexivity.
  - intros tag H.
    unfold ApiKeys.GET_receipts, ApiKeys.GET_receipts_id,
      ApiKeys.behind_requireApiKey, requireApiKey.
    rewrite H. split; reflexivity.
Qed.

End HookFacts.

Lemma unresolved_keys_are_refused_witness :
  ApiKeys.GET_receipts Samples.sample_verify None Samples.db0
    (VString (js "short")) None None
  = Returns (message 401 "Invalid or missing API key", Samples.db0).
Proof.
  apply (proj1 (proj2 (proj2 (unresolved_keys_are_refused
                                Samples.sample_verify
                                Samples.db0 (VString (js "short")))))).
  apply (proj1 (proj2 (unresolved_keys_are_refused Samples.sample_verify
                         Samples.db0 (VString (js "short"))))).
  intros s [= <-]. vm_compute. reflexivity.
Defined.

(** ** Health *)

(** X13. GET /health answers 200 with [ok: true] exactly when the probe
    of the database succeeded and the probe of the bucket did not fail,
    the bucket being probed only when S3_ACCESS_KEY_ID and S3_BUCKET are
    both set; otherwise it answers 503 with [ok: false].  A failed probe
    is reported in the payload, never raised: [db] is "error" exactly
    when the database probe failed, and [s3] is "skipped" when
    S3_ACCESS_KEY_ID is not set, "error" when the bucket probe was made
    and failed, "ok" otherwise. *)
Theorem health_reflects_the_probes (env : Health.Env)
    (queryRaw headBucket : Outcome unit) :
  let reply := Health.health_route env queryRaw headBucket in
  let key := Health.is_set (Health.S3_ACCESS_KEY_ID env) in
  let bucket := Health.is_set (Health.S3_BUCKET env) in
  let db_failed := match queryRaw with Throws _ => true | Returns _ => false end in
  let s3_failed :=
    key && bucket
    && match headBucket with Throws _ => true | Returns _ => false end in
  status reply = (if db_failed || s3_failed then 503 else 200)
  /\ payload reply
     = Health.health_payload
         (negb (db_failed || s3_failed))
         (if db_failed then "error" else "ok")
         (if negb key then "skipped" else if s3_failed then "error" else "ok").
Proof.
  unfold Health.health_route, Health.checkS3, Health.checkDb.
  destruct queryRaw as [[]|e], headBucket as [[]|e'],
    (Health.is_set (Health.S3_ACCESS_KEY_ID env)),
    (Health.is_set (Health.S3_BUCKET env)); split; reflexivity.
Qed.

(** ** Object upload: the ways it fails, and the key *)

(** X14. An upload that fails stores nothing: a payload that the server
    has no parser for is answered 415; of the requests that reach the
    handler, a key that [decodeURIComponent] refuses is answered 500; an
    accepted key with a body that is not a buffer, 400; an accepted key
    and a buffer of 1 to 2097152 octets while the bucket does not answer,
    502; the bucket is left as it was. *)
Theorem failed_uploads_store_nothing (cdn s3_public : option jsstring)
    (bucket : Objects.Bucket) (request : Objects.PutRequest) :
  let limit_ok :=
    Z.of_nat (length (Objects.octets_sent request)) <= 2 * 1024 * 1024 in
  (Objects.request_body request = None ->
   Objects.put_route cdn s3_public bucket request
   = (message 415 "Unsupported Media Type", bucket))
  /\ (forall header,
      Objects.content_type request = Some header ->
      Objects.parser_for header = None ->
      Objects.request_body request = None)
  /\ (Objects.content_type request = None ->
      Objects.octets_sent request <> [] ->
      Objects.request_body request = None)
  /\ (forall e body,
      decodeURIComponent (Objects.rawKey_of request) = Throws e ->
      Objects.request_body request = Some body ->
      limit_ok ->
      Objects.put_route cdn s3_public bucket request
      = (message 500 "Internal Server Error", bucket))
  /\ (forall decoded body,
      decodeURIComponent (Objects.rawKey_of request) = Returns decoded ->
      test Objects.ALLOWED_PREFIX (Objects.strip_leading_slashes decoded)
      = true ->
      limit_ok ->
      Objects.request_body request = Some body ->
      (forall octets, body <> Objects.Buffer octets) ->
      Objects.put_route cdn s3_public bucket request
      = (message 400 "Missing or invalid body (expected binary)", bucket))
  /\ (forall decoded header,
      decodeURIComponent (Objects.rawKey_of request) = Returns decoded ->
      test Objects.ALLOWED_PREFIX (Objects.strip_leading_slashes decoded)
      = true ->
      Objects.content_type request = Some header ->
      Objects.parser_for header = Some Objects.ParseAsBuffer ->
      1 <= Z.of_nat (length (Objects.octets_sent request)) <= 2 * 1024 * 1024 ->
      Objects.reachable bucket = false ->
      Objects.put_route cdn s3_public bucket request
      = (message 502 "Upload failed", bucket)).
Proof.
  intros limit_ok. subst limit_ok. unfold Objects.put_route.
  split; [|split; [|split; [|split; [|split]]]].
  - intros H. now rewrite H.
  - intros header Hct Hp. now rewrite (request_body_typed _ _ Hct), Hp.
  - intros Hct Hsent. unfold Objects.request_body. rewrite Hct.
    destruct (Objects.octets_sent request); [congruence | reflexivity].
  - intros e body Hd Hbody Hlim.
    assert (E : (Objects.MAX_BODY_SIZE
                 <? Z.of_nat (length (Objects.octets_sent request))) = false)
      by (apply Z.ltb_ge; unfold Objects.MAX_BODY_SIZE; lia).
    rewrite Hbody, E. unfold Objects.put_handler. now rewrite Hd.
  - intros decoded body Hd Hk Hlim Hbody Hnot.
    assert (E : (Objects.MAX_BODY_SIZE
                 <? Z.of_nat (length (Objects.octets_sent request))) = false)
      by (apply Z.ltb_ge; unfold Objects.MAX_BODY_SIZE; lia).
    rewrite Hbody, E, (put_handler_accepted_key _ _ _ _ _ decoded Hd Hk).
    destruct body as [|octets|octets]; try reflexivity.
    exfalso. now apply (Hnot octets).
  - intros decoded header Hd Hk Hct Hp Hlen Hdown.
    rewrite (request_body_typed _ _ Hct), Hp.
    rewrite (put_handler_accepted_key _ _ _ _ _ decoded Hd Hk).
    assert (E1 : (Objects.MAX_BODY_SIZE
                  <? Z.of_nat (length (Objects.octets_sent request))) = false)
      by (apply Z.ltb_ge; unfold Objects.MAX_BODY_SIZE; lia).
    assert (E2 : (Z.of_nat (length (Objects.octets_sent request)) =? 0) = false)
      by (apply Z.eqb_neq; lia).
    rewrite E1, E2. unfold Objects.uploadObject. now rewrite Hdown.
Qed.

Lemma failed_uploads_store_nothing_witness :
  Objects.put_route None None
    {| Objects.objects := []; Objects.reachable := false |}
    (Samples.put_request "tokens/ABC/logo.png" [137%N])
  = (message 502 "Upload failed",
     {| Objects.objects := []; Objects.reachable := false |}).
Proof.
  apply (proj2 (proj2 (proj2 (proj2 (proj2
           (failed_uploads_store_nothing None None
              {| Objects.objects := []; Objects.reachable := false |}
              (Samples.put_request "tokens/ABC/logo.png" [137%N]))))))
           (js "tokens/ABC/logo.png") (js "image/png"));
    try reflexivity.
  cbn. lia.
Defined.

Lemma decode_leading_slash (k : jsstring) :
  decodeURIComponent (47%N :: k) = prepend [47%N] (decodeURIComponent k).
Proof. reflexivity. Qed.

(** X15. Slashes in front of the key make no difference to an upload:
    PUT with the key [/k] is answered as PUT with the key [k], and stores
    what it stores. *)
Theorem leading_slashes_are_ignored (cdn s3_public : option jsstring)
    (bucket : Objects.Bucket) (k : jsstring) (ct : option jsstring)
    (te : bool) (sent : list N) :
  Objects.put_route cdn s3_public bucket
    {| Objects.param_star := Some (47%N :: k);
       Objects.content_type := ct; Objects.chunked := te;
       Objects.octets_sent := sent |}
  = Objects.put_route cdn s3_public bucket
      {| Objects.param_star := Some k;
         Objects.content_type := ct; Objects.chunked := te;
         Objects.octets_sent := sent |}.
Proof.
  unfold Objects.put_route.
  change (Objects.request_body
            {| Objects.param_star := Some (47%N :: k);
               Objects.content_type := ct; Objects.chunked := te;
               Objects.octets_sent := sent |})
    with (Objects.request_body
            {| Objects.param_star := Some k;
               Objects.content_type := ct; Objects.chunked := te;
               Objects.octets_sent := sent |}).
  destruct (Objects.request_body _) as [body|]; [|reflexivity].
  cbn [Objects.octets_sent].
  destruct (Objects.MAX_BODY_SIZE <? _); [reflexivity|].
  assert (H : forall r r',
             Objects.rawKey_of r = 47%N :: Objects.rawKey_of r' ->
             Objects.content_type r = Objects.content_type r' ->
             Objects.put_handler cdn s3_public bucket r body
             = Objects.put_handler cdn s3_public bucket r' body).
  { intros r r' Hk Hc. unfold Objects.put_handler, Objects.contentType_of.
    rewrite Hk, Hc, decode_leading_slash.
    destruct (decodeURIComponent (Objects.rawKey_of r')) as [d|e];
      reflexivity. }
  rewrite (H _ {| Objects.param_star := Some k;
                  Objects.content_type := ct; Objects.chunked := te;
                  Objects.octets_sent := sent |});
    reflexivity.
Qed.

(** ** URLs *)

Lemma strip_trailing_slash_snoc (b : jsstring) :
  Receipts.strip_trailing_slash (b ++ js "/") = b.
Proof.
  unfold Receipts.strip_trailing_slash. rewrite rev_app_distr. cbn.
  apply rev_involutive.
Qed.

Lemma strip_trailing_slash_none (b : jsstring) :
  (forall b', b <> b' ++ js "/") -> Receipts.strip_trailing_slash b = b.
Proof.
  intros H. unfold Receipts.strip_trailing_slash.
  destruct (rev b) as [|c t] eqn:E; [reflexivity|].
  destruct (c =? 47)%N eqn:Ec; [|reflexivity].
  exfalso. apply N.eqb_eq in Ec. subst c. apply (H (rev t)).
  rewrite <- (rev_involutive b), E. reflexivity.
Qed.

(** X16. One slash at the end of a configured base URL makes no
    difference to the URLs built on it: the URL of a receipt and the
    public URL of an object are the base without that slash, a slash,
    and the id or key.  [getPublicUrl] takes CDN_BASE_URL before
    S3_PUBLIC_BASE, and https://cdn.moltr.app when neither is set. *)
Theorem base_url_slash_is_dropped (b x : jsstring) :
  Receipts.receipt_url (Some (b ++ js "/")) x = b ++ js "/" ++ x
  /\ (forall s3_public,
        Objects.getPublicUrl (Some (b ++ js "/")) s3_public x
        = b ++ js "/" ++ x)
  /\ Objects.getPublicUrl None (Some (b ++ js "/")) x = b ++ js "/" ++ x
  /\ Objects.getPublicUrl None None x = js "https://cdn.moltr.app/" ++ x
  /\ Receipts.receipt_url None x = js "https://api.moltr.app/r/" ++ x
  /\ ((forall b', b <> b' ++ js "/") ->
      Receipts.receipt_url (Some b) x = b ++ js "/" ++ x
      /\ (forall s3_public,
            Objects.getPublicUrl (Some b) s3_public x = b ++ js "/" ++ x)
      /\ Objects.getPublicUrl None (Some b) x = b ++ js "/" ++ x).
Proof.
  unfold Receipts.receipt_url, Objects.getPublicUrl, Receipts.RECEIPT_BASE_URL.
  rewrite !strip_trailing_slash_snoc.
  repeat split; try reflexivity.
  all: try (intros; destruct s3_public; reflexivity).
  all: try (rewrite strip_trailing_slash_none by assumption; reflexivity).
  all: intros s3; rewrite strip_trailing_slash_none by assumption;
       reflexivity.
Qed.

Lemma base_url_slash_is_dropped_witness :
  Receipts.receipt_url (Some (js "https://moltr.app/r")) (js "r1")
  = js "https://moltr.app/r" ++ js "/" ++ js "r1".
Proof.
  apply (proj2 (proj2 (proj2 (proj2 (proj2
           (base_url_slash_is_dropped (js "https://moltr.app/r")
                                      (js "r1"))))))).
  intros b' E. apply (f_equal (@rev N)) in E.
  rewrite rev_app_distr in E. vm_compute in E. discriminate E.
Defined.

(** ** Tag lookup *)

(** X17. GET /tags/:username does not depend on the letter case of the
    parameter.  It answers 400 exactly when the lower-cased parameter is
    not a string of 3 to 20 characters of [a-z0-9_]; otherwise 404 when
    no tag has that username, and 200 with the username and wallet
    address of the tag that has it. *)
Theorem lookup_answers (db : Db) (param : jsstring) :
  let u := toLowerCase param in
  let valid := 3 <= str_length u <= 20
               /\ forallb Tags.username_class u = true in
  Tags.lookup_route db param = Tags.lookup_route db u
  /\ (status (Tags.lookup_route db param) = 400 <-> ~ valid)
  /\ (valid ->
      Tags.lookup_route db param
      = match tag_findUnique_username db u with
        | None => message 404 "Tag not found"
        | Some tag =>
            {| status := 200;
               payload :=
                 JObj [ (js "username", JStr (tag_username tag));
                        (js "walletAddress", JStr (tag_walletAddress tag)) ] |}
        end).
Proof.
  intros u valid. split.
  { unfold Tags.lookup_route, u. now rewrite toLowerCase_idempotent. }
  assert (V : valid ->
              (negb (truthy (VString u)) || (str_length u <? 3)
               || (20 <? str_length u)
               || negb (test Tags.USERNAME_PATTERN u)) = false).
  { intros [Hlen Hclass].
    assert (T : truthy (VString u) = true)
      by (destruct u; [cbn in Hlen; lia | reflexivity]).
    assert (E1 : (str_length u <? 3) = false) by (apply Z.ltb_ge; lia).
    assert (E2 : (20 <? str_length u) = false) by (apply Z.ltb_ge; lia).
    assert (E3 : test Tags.USERNAME_PATTERN u = true).
    { apply USERNAME_PATTERN_spec. split; [|exact Hclass].
      intros E0. rewrite E0 in Hlen. cbn in Hlen. lia. }
    now rewrite T, E1, E2, E3. }
  split.
  - unfold Tags.lookup_route. fold u. split.
    + intros H [Hlen Hclass]. rewrite (V (conj Hlen Hclass)) in H.
      destruct (tag_findUnique_username db u); discriminate H.
    + intros Hinvalid.
      destruct (negb (truthy (VString u)) || (str_length u <? 3)
                || (20 <? str_length u)
                || negb (test Tags.USERNAME_PATTERN u)) eqn:E;
        [reflexivity|].
      exfalso. apply Hinvalid.
      apply orb_false_iff in E. destruct E as [E E3].
      apply orb_false_iff in E. destruct E as [E E2].
      apply orb_false_iff in E. destruct E as [_ E1].
      apply Z.ltb_ge in E1, E2. apply negb_false_iff in E3.
      apply USERNAME_PATTERN_spec in E3. split; [lia | tauto].
  - intros Hv. unfold Tags.lookup_route. fold u. now rewrite (V Hv).
Qed.

Lemma lookup_answers_witness :
  Tags.lookup_route Samples.db0 (js "Bob")
  = {| status := 200;
       payload := JObj [ (js "username", JStr (js "bob"));
                         (js "walletAddress", JStr (js "walletB")) ] |}.
Proof.
  apply (proj2 (proj2 (lookup_answers Samples.db0 (js "Bob")))).
  split; [vm_compute; split; discriminate | reflexivity].
Defined.
